(** * ElasticQuota scheduler plugin (koordinator): admission protocol

    Shallow embedding of [pkg/scheduler/plugins/elasticquota/plugin.go]
    and of the parts of the quota engine it drives.  Resource lists are
    finite maps from resource names to quantities; the scheduling cycle
    state and the group quota manager are passed explicitly. *)

From Stdlib Require Import ZArith Lia Ascii.
From stdpp Require Import gmap strings list fin_maps sorting.

Local Open Scope Z_scope.

(* ================================================================= *)
(** * Part I: the embedding *)

(** ** Resource lists: [corev1.ResourceList] and the helpers of
       [k8s.io/apiserver/pkg/quota/v1] that the plugin calls *)

(** A [resource.Quantity] is an exact signed decimal; it is represented by
    its integer count of the smallest unit. *)
Abbreviation Quantity := Z (only parsing).
Abbreviation ResourceName := string (only parsing).
Abbreviation ResourceList := (gmap string Z) (only parsing).

Module quotav1.

(** Value of a dimension read as a vector entry: indexing a Go map at a
    missing key yields the zero quantity. *)
Definition qty (rl : ResourceList) (k : ResourceName) : Quantity :=
  default 0 (rl !! k).

(** [Add] returns the result of a + b for each named resource: every key
    of [a] (plus [b]'s value when [b] has the key), then the keys that
    only [b] has. *)
Definition Add (a b : ResourceList) : ResourceList :=
  union_with (fun x y => Some (x + y)) a b.

(** [SubtractWithNonNegativeResult] subtracts and returns a - b but never
    a negative value: every key of [a] gets [a - b] when that is
    positive and zero otherwise, every key only [b] has gets zero. *)
Definition SubtractWithNonNegativeResult (a b : ResourceList) : ResourceList :=
  merge (fun x y =>
           match x, y with
           | Some u, Some r => Some (if decide (0 < u - r) then u - r else 0)
           | Some u, None => Some (if decide (0 < u) then u else 0)
           | None, Some _ => Some 0
           | None, None => None
           end) a b.

(** The test in the loop of [LessThanOrEqual] for an entry of [b]: [a]
    has the key, and with a greater quantity. *)
Definition exceeds (a : ResourceList) (kv : ResourceName * Quantity) : bool :=
  match a !! kv.1 with
  | Some other => bool_decide (kv.2 < other)
  | None => false
  end.

(** [LessThanOrEqual] returns true if a <= b for each key in [b], and
    the keys of [b] at which [a] exceeds it.  The loop ranges over the
    entries of [b] only; the order in which the exceeded keys are
    collected is the iteration order of the map, which Go leaves open. *)
Definition LessThanOrEqual (a b : ResourceList) : bool * list ResourceName :=
  let resourceNames := (filter (fun kv => exceeds a kv = true) (map_to_list b)).*1 in
  (bool_decide (resourceNames = []), resourceNames).

(** Every entry is at least zero. *)
Definition nonneg (rl : ResourceList) : Prop :=
  forall k v, rl !! k = Some v -> 0 <= v.

End quotav1.

Import quotav1.

(** ** Scheduler framework: pods and statuses *)

(** The parts of a [corev1.Pod] the plugin reads. *)
Record Pod := {
  pod_key : string;                 (* namespace/name, the workload identity *)
  pod_quotaName : option string;    (* the quota-name label, when present *)
  pod_isReserve : bool;             (* the marker of a reservation pod *)
  pod_priority : Z;
  pod_created : Z;                  (* creation timestamp *)
  pod_requests : ResourceList       (* summed container requests *)
}.

(** [resource.PodRequestsAndLimits], first result: the pod's requests. *)
Definition PodRequestsAndLimits (pod : Pod) : ResourceList := pod_requests pod.

(** [reservationutil.IsReservePod]: whether the pod is the stand-in pod of
    a reservation; its body is not among the sources at hand, the marker
    it reads is a field of the pod here. *)
Definition IsReservePod (pod : Pod) : bool := pod_isReserve pod.

Module framework.

Inductive Code := Success | Error | Unschedulable.

#[export] Instance Code_eq_dec : EqDecision Code.
Proof. solve_decision. Defined.

(** The message of a status.  The one built by [fmt.Sprintf] for an
    insufficient quota is kept as the tuple of its arguments. *)
Inductive Message :=
| Text (s : string)
| InsufficientQuotas (quotaName : string) (runtime used podRequest : ResourceList)
                     (exceedDimensions : list ResourceName)
| Prefixed (prefix : string) (m : Message).

Record Status := NewStatus { code : Code; message : Message }.

(** A [*Status] may be nil, and nil counts as success. *)
Definition Code_of (s : option Status) : Code :=
  match s with
  | Some st => code st
  | None => Success
  end.

Definition IsSuccess (s : option Status) : bool :=
  bool_decide (Code_of s = Success).

Record PodInfo := { Pod_of : Pod }.

(** A node with the pods placed on it. *)
Record NodeInfo := { node_name : string; Pods : list PodInfo }.

End framework.

Import framework.

(** ** Quota tree *)

Module core.

(** Modelled from the spec: [core.QuotaInfo], the quota group of §3
    with the workload assignments the manager keeps for it.  The parent
    is a weak reference by name; the synthetic root has none. *)
Record QuotaInfo := {
  Name : string;
  ParentName : option string;
  Min : ResourceList;
  Max : ResourceList;
  SharedWeight : ResourceList;
  Used : ResourceList;
  Request : ResourceList;
  Runtime : ResourceList;
  PodCache : gmap string Pod   (* workload identity -> the assigned workload *)
}.

Definition setRuntime (r : ResourceList) (qi : QuotaInfo) : QuotaInfo :=
  {| Name := Name qi; ParentName := ParentName qi; Min := Min qi; Max := Max qi;
     SharedWeight := SharedWeight qi; Used := Used qi; Request := Request qi;
     Runtime := r; PodCache := PodCache qi |}.

Definition GetUsed (qi : QuotaInfo) : ResourceList := Used qi.
Definition GetRuntime (qi : QuotaInfo) : ResourceList := Runtime qi.

(** Modelled from the spec: [QuotaInfo.IsPodExist], whether the quota
    group tracks the workload. *)
Definition IsPodExist (qi : QuotaInfo) (pod : Pod) : bool :=
  bool_decide (is_Some (PodCache qi !! pod_key pod)).

Definition DefaultQuotaName : string := "default".

(** Modelled from the spec: [core.GroupQuotaManager], the name-keyed
    arena of quota groups (§9) and the fallback policy for unknown
    names (§4.1, §7). *)
Record GroupQuotaManager := {
  quotaInfoMap : gmap string QuotaInfo;
  strictMode : bool
}.

Definition setQuotaInfoMap (m : gmap string QuotaInfo) (gqm : GroupQuotaManager)
  : GroupQuotaManager :=
  {| quotaInfoMap := m; strictMode := strictMode gqm |}.

(** Modelled from the spec: [GroupQuotaManager.GetQuotaInfoByName]
    returns the group's snapshot, or resolves an absent name to
    "default" unless strict mode is configured. *)
Definition GetQuotaInfoByName (gqm : GroupQuotaManager) (name : string) : option QuotaInfo :=
  match quotaInfoMap gqm !! name with
  | Some qi => Some qi
  | None => if strictMode gqm then None else quotaInfoMap gqm !! DefaultQuotaName
  end.

(** Modelled from the spec: the effect of [ReservePod] on a group, the
    idempotent add of the workload's request to [Used] and [Request],
    recording the assignment. *)
Definition reserveInto (qi : QuotaInfo) (pod : Pod) : QuotaInfo :=
  match PodCache qi !! pod_key pod with
  | Some _ => qi
  | None =>
      {| Name := Name qi; ParentName := ParentName qi; Min := Min qi; Max := Max qi;
         SharedWeight := SharedWeight qi;
         Used := Add (Used qi) (PodRequestsAndLimits pod);
         Request := Add (Request qi) (PodRequestsAndLimits pod);
         Runtime := Runtime qi;
         PodCache := <[pod_key pod := pod]> (PodCache qi) |}
  end.

(** Modelled from the spec: [GroupQuotaManager.ReservePod] applies the
    idempotent add to the named group; no group of that name, no change. *)
Definition ReservePod (gqm : GroupQuotaManager) (quotaName : string) (pod : Pod)
  : GroupQuotaManager :=
  match quotaInfoMap gqm !! quotaName with
  | Some qi => setQuotaInfoMap (<[quotaName := reserveInto qi pod]> (quotaInfoMap gqm)) gqm
  | None => gqm
  end.

(** Modelled from the spec: the effect of [UnreservePod] on a group, the
    inverse with subtraction floored at zero per dimension, a no-op
    when the workload was not tracked. *)
Definition unreserveFrom (qi : QuotaInfo) (pod : Pod) : QuotaInfo :=
  match PodCache qi !! pod_key pod with
  | None => qi
  | Some _ =>
      {| Name := Name qi; ParentName := ParentName qi; Min := Min qi; Max := Max qi;
         SharedWeight := SharedWeight qi;
         Used := SubtractWithNonNegativeResult (Used qi) (PodRequestsAndLimits pod);
         Request := SubtractWithNonNegativeResult (Request qi) (PodRequestsAndLimits pod);
         Runtime := Runtime qi;
         PodCache := delete (pod_key pod) (PodCache qi) |}
  end.

(** Modelled from the spec: [GroupQuotaManager.UnreservePod] applies the
    inverse to the named group. *)
Definition UnreservePod (gqm : GroupQuotaManager) (quotaName : string) (pod : Pod)
  : GroupQuotaManager :=
  match quotaInfoMap gqm !! quotaName with
  | Some qi => setQuotaInfoMap (<[quotaName := unreserveFrom qi pod]> (quotaInfoMap gqm)) gqm
  | None => gqm
  end.

(** Two managers that differ at most in the [Runtime] of their groups. *)
Definition sameButRuntime (gqm gqm' : GroupQuotaManager) : Prop :=
  strictMode gqm' = strictMode gqm /\
  forall name,
    option_Forall2 (fun qi qi' => qi' = setRuntime (Runtime qi') qi)
                   (quotaInfoMap gqm !! name) (quotaInfoMap gqm' !! name).

(** Modelled from the spec: [GroupQuotaManager.RefreshRuntime]
    recomputes [Runtime] along the root-to-node path (§4.2).  The
    admission protocol is stated over any runtime calculator; all it
    relies on is that a refresh rewrites [Runtime] fields only. *)
Class RuntimeCalculator := {
  RefreshRuntime : GroupQuotaManager -> string -> GroupQuotaManager;
  RefreshRuntime_frame : forall gqm name, sameButRuntime gqm (RefreshRuntime gqm name)
}.

End core.

Import core.

(** ** The plugin *)

(** The fields of [config.ElasticQuotaArgs] the plugin reads. *)
Record ElasticQuotaArgs := {
  EnableCheckParentQuota : bool;
  DelayEvictTime : Z;
  RevokePodInterval : Z;
  MonitorAllQuotas : bool
}.

(** The per-attempt state; [quotaInfo] holds the snapshot that
    [GetQuotaInfoByName] returned for the pod's tenant. *)
Record PostFilterState := {
  quotaInfo : QuotaInfo;
  used : ResourceList;
  runtime : ResourceList
}.

(** [ResourceList.DeepCopy]: a fresh map with the same entries. *)
Definition DeepCopy (rl : ResourceList) : ResourceList := rl.

Definition Clone (p : PostFilterState) : PostFilterState :=
  {| quotaInfo := quotaInfo p; used := DeepCopy (used p); runtime := DeepCopy (runtime p) |}.

(** The entry of the [framework.CycleState] under [postFilterKey]. *)
Abbreviation CycleState := (option PostFilterState) (only parsing).

Record Plugin := {
  pluginArgs : ElasticQuotaArgs;
  groupQuotaManager : GroupQuotaManager
}.

Definition setGroupQuotaManager (gqm : GroupQuotaManager) (g : Plugin) : Plugin :=
  {| pluginArgs := pluginArgs g; groupQuotaManager := gqm |}.

(** Modelled from the spec: [Plugin.getPodAssociateQuotaName] resolves
    the tenant by label; a workload without the label is governed by the
    "default" tenant (§4.5). *)
Definition getPodAssociateQuotaName (g : Plugin) (pod : Pod) : string :=
  default DefaultQuotaName (pod_quotaName pod).

(** Modelled from the spec: [Plugin.snapshotPostFilterState] records the
    snapshot's [Used] and [Runtime] as the per-attempt state and stores it
    in the cycle state. *)
Definition snapshotPostFilterState (quotaInfo : QuotaInfo) (cycleState : CycleState)
  : PostFilterState * CycleState :=
  let postFilterState :=
    {| quotaInfo := quotaInfo; used := GetUsed quotaInfo; runtime := GetRuntime quotaInfo |} in
  (postFilterState, Some postFilterState).

(** Modelled from the spec: [getPostFilterState] reads the per-attempt
    state back and fails when the cycle state holds none. *)
Definition getPostFilterState (cycleState : CycleState) : PostFilterState + string :=
  match cycleState with
  | Some s => inl s
  | None => inr "PostFilterState not found in cycleState"%string
  end.

(** Modelled from the spec: [Plugin.checkQuotaRecursive] repeats the
    used-plus-request check up each ancestor quota, starting at
    [curQuotaName] and following the parent references; [quotaNameTopo]
    collects the names visited.  The recursion of the source is unbounded;
    [fuel] bounds it here and [None] stands for a walk that has not
    returned within it. *)
Fixpoint checkQuotaRecursive (fuel : nat) (gqm : GroupQuotaManager) (curQuotaName : string)
    (quotaNameTopo : list string) (podRequest : ResourceList) : option Status :=
  match fuel with
  | O => None
  | S fuel' =>
      match GetQuotaInfoByName gqm curQuotaName with
      | None => Some (NewStatus Error (Text "Could not find the specified ElasticQuota"))
      | Some quotaInfo =>
          let quotaUsed := GetUsed quotaInfo in
          let quotaRuntime := GetRuntime quotaInfo in
          let newUsed := Add podRequest quotaUsed in
          let '(isLessEqual, exceedDimensions) := LessThanOrEqual newUsed quotaRuntime in
          if negb isLessEqual then
            Some (NewStatus Unschedulable
                    (InsufficientQuotas curQuotaName quotaRuntime quotaUsed podRequest
                                        exceedDimensions))
          else
            match ParentName quotaInfo with
            | Some parent =>
                checkQuotaRecursive fuel' gqm parent (quotaNameTopo ++ [parent]) podRequest
            | None => Some (NewStatus Success (Text EmptyString))
            end
      end
  end.

Section Admission.

Context `{calc : RuntimeCalculator}.

(** [Plugin.PreFilter].  The result pairs the plugin and cycle state
    after the call with the returned status (the [*PreFilterResult] is
    always nil); [None] only when the ancestor walk does not return.  The
    walk gets one unit of fuel for each group of the tree and one more:
    a walk that has not returned by then has come back to a group it
    has seen and goes round for ever. *)
Definition PreFilter (g : Plugin) (cycleState : CycleState) (pod : Pod)
  : option (Plugin * CycleState * Status) :=
  let quotaName := getPodAssociateQuotaName g pod in
  let gqm := RefreshRuntime (groupQuotaManager g) quotaName in
  let g := setGroupQuotaManager gqm g in
  match GetQuotaInfoByName gqm quotaName with
  | None =>
      Some (g, cycleState,
            NewStatus Error (Text "Could not find the specified ElasticQuota"))
  | Some quotaInfo =>
      let '(state, cycleState) := snapshotPostFilterState quotaInfo cycleState in
      let podRequest := PodRequestsAndLimits pod in
      let used' := Add podRequest (used state) in
      let '(isLessEqual, exceedDimensions) := LessThanOrEqual used' (runtime state) in
      if negb isLessEqual then
        Some (g, cycleState,
              NewStatus Unschedulable
                (InsufficientQuotas quotaName (runtime state) (used state)
                                    podRequest exceedDimensions))
      else if EnableCheckParentQuota (pluginArgs g) then
        st ← checkQuotaRecursive (S (size (quotaInfoMap gqm))) gqm quotaName [quotaName]
               podRequest;
        Some (g, cycleState, st)
      else
        Some (g, cycleState, NewStatus Success (Text EmptyString))
  end.

End Admission.

(** ** Simulated accounting, commit and rollback *)

Definition setUsed (u : ResourceList) (p : PostFilterState) : PostFilterState :=
  {| quotaInfo := quotaInfo p; used := u; runtime := runtime p |}.

(** [Plugin.AddPod]: called by the framework while trying to evaluate the
    impact of adding [podInfoToAdd] to the node while scheduling
    [podToSchedule]. *)
Definition AddPod (g : Plugin) (state : CycleState) (podToSchedule : Pod)
    (podInfoToAdd : PodInfo) (nodeInfo : NodeInfo) : Plugin * CycleState * option Status :=
  if IsReservePod (Pod_of podInfoToAdd) then (g, state, None)
  else
    match getPostFilterState state with
    | inr err => (g, state, Some (NewStatus Error (Text err)))
    | inl postFilterState =>
        if IsPodExist (quotaInfo postFilterState) (Pod_of podInfoToAdd) then
          let podReq := PodRequestsAndLimits (Pod_of podInfoToAdd) in
          (g, Some (setUsed (Add (used postFilterState) podReq) postFilterState),
           Some (NewStatus Success (Text EmptyString)))
        else (g, state, Some (NewStatus Success (Text EmptyString)))
    end.

(** [Plugin.RemovePod]: called by the framework while trying to evaluate
    the impact of removing [podInfoToRemove] from the node while
    scheduling [podToSchedule]. *)
Definition RemovePod (g : Plugin) (state : CycleState) (podToSchedule : Pod)
    (podInfoToRemove : PodInfo) (nodeInfo : NodeInfo) : Plugin * CycleState * option Status :=
  if IsReservePod (Pod_of podInfoToRemove) then (g, state, None)
  else
    match getPostFilterState state with
    | inr err => (g, state, Some (NewStatus Error (Text err)))
    | inl postFilterState =>
        if IsPodExist (quotaInfo postFilterState) (Pod_of podInfoToRemove) then
          let podReq := PodRequestsAndLimits (Pod_of podInfoToRemove) in
          (g, Some (setUsed (SubtractWithNonNegativeResult (used postFilterState) podReq)
                            postFilterState),
           Some (NewStatus Success (Text EmptyString)))
        else (g, state, Some (NewStatus Success (Text EmptyString)))
    end.

(** [Plugin.Reserve]. *)
Definition Reserve (g : Plugin) (state : CycleState) (p : Pod) (nodeName : string)
  : Plugin * Status :=
  let quotaName := getPodAssociateQuotaName g p in
  (setGroupQuotaManager (ReservePod (groupQuotaManager g) quotaName p) g,
   NewStatus Success (Text EmptyString)).

(** [Plugin.Unreserve]. *)
Definition Unreserve (g : Plugin) (state : CycleState) (p : Pod) (nodeName : string)
  : Plugin :=
  let quotaName := getPodAssociateQuotaName g p in
  setGroupQuotaManager (UnreservePod (groupQuotaManager g) quotaName p) g.

(** The [Used] vector of a tenant in the shared tree, read per dimension. *)
Definition usedOf (g : Plugin) (quotaName : string) (k : ResourceName) : Quantity :=
  match quotaInfoMap (groupQuotaManager g) !! quotaName with
  | Some qi => qty (Used qi) k
  | None => 0
  end.

(** One step of the simulated accounting of a scheduling attempt. *)
Inductive SimOp :=
| SimulatedAdd (podInfo : PodInfo) (nodeInfo : NodeInfo)
| SimulatedRemove (podInfo : PodInfo) (nodeInfo : NodeInfo).

Definition simStep (podToSchedule : Pod) (st : Plugin * CycleState) (op : SimOp)
  : Plugin * CycleState :=
  match op with
  | SimulatedAdd pi ni => (AddPod st.1 st.2 podToSchedule pi ni).1
  | SimulatedRemove pi ni => (RemovePod st.1 st.2 podToSchedule pi ni).1
  end.

Definition simulate (podToSchedule : Pod) (st : Plugin * CycleState) (ops : list SimOp)
  : Plugin * CycleState :=
  foldl (simStep podToSchedule) st ops.

(** A refresh that grants the named group its ceiling: the runtime of a
    group whose siblings leave all capacity to it. *)
Definition grantMax (gqm : GroupQuotaManager) (name : string) : GroupQuotaManager :=
  setQuotaInfoMap (alter (fun qi => setRuntime (Max qi) qi) name (quotaInfoMap gqm)) gqm.

(** ** Derived notions used to state the properties *)

(** The dimensions [LessThanOrEqual] reports: those [limit] lists and
    where [request] holds more. *)
Definition exceededAt (request limit : ResourceList) (k : ResourceName) : Prop :=
  exists bound other, limit !! k = Some bound /\ request !! k = Some other /\ bound < other.

(** The per-attempt used vector held in the cycle state, per dimension. *)
Definition cycleUsed (state : CycleState) (k : ResourceName) : Quantity :=
  match state with
  | Some s => qty (used s) k
  | None => 0
  end.

Definition cycleNonneg (state : CycleState) : Prop :=
  forall s, state = Some s -> nonneg (used s).

Definition success : option Status := Some (NewStatus Success (Text EmptyString)).

(** When a simulated step takes effect. *)
Definition accounted (state : CycleState) (pod : Pod) : bool :=
  negb (IsReservePod pod) &&
  match state with
  | Some s => IsPodExist (quotaInfo s) pod
  | None => false
  end.

(** A simulated step keeps the per-attempt used vector free of negative
    entries; an addition needs the added request to have none. *)
Definition addsNonneg (op : SimOp) : Prop :=
  match op with
  | SimulatedAdd podInfo _ => nonneg (PodRequestsAndLimits (Pod_of podInfo))
  | SimulatedRemove _ _ => True
  end.

(** The admission check of one quota group for a request. *)
Definition fits (podRequest : ResourceList) (qi : QuotaInfo) : bool :=
  (LessThanOrEqual (Add podRequest (Used qi)) (Runtime qi)).1.


(** Where the ancestor walk goes on to from a name: the parent of the
    group the name resolves to, when that group passes the check; [None]
    where the walk returns. *)
Definition walkNext (gqm : GroupQuotaManager) (podRequest : ResourceList) (name : string)
  : option string :=
  qi ← GetQuotaInfoByName gqm name;
  if fits podRequest qi then ParentName qi else None.

(** The name the walk has reached after [n] steps, if it has not
    returned before. *)
Fixpoint walkIter (gqm : GroupQuotaManager) (podRequest : ResourceList) (n : nat)
    (name : string) : option string :=
  match n with
  | O => Some name
  | S n' => walkNext gqm podRequest name ≫= walkIter gqm podRequest n'
  end.

(** The name under which the tree stores the group that a name resolves
    to, if it resolves. *)
Definition resolvedName (gqm : GroupQuotaManager) (name : string) : string :=
  if decide (is_Some (quotaInfoMap gqm !! name)) then name else DefaultQuotaName.

(** ** Preemption *)

(** Whether the pod fits the per-attempt state: used plus request against
    runtime, as in [PreFilter]. *)
Definition fitsAttempt (state : CycleState) (pod : Pod) : bool :=
  match state with
  | Some s => (LessThanOrEqual (Add (PodRequestsAndLimits pod) (used s)) (runtime s)).1
  | None => false
  end.

(** A node proposed for preemption with the pods to evict from it. *)
Record Candidate := { candidateNode : string; victims : list Pod }.

Definition isEmptyMessage (m : Message) : bool :=
  match m with
  | Text EmptyString => true
  | _ => false
  end.

Section Preemption.

(** What the upstream [preemption.Evaluator] contributes: which pods a
    preemptor may evict at all (priority, disruption budgets), and the
    choice of one candidate among those found. *)
Variable eligibleVictim : Pod -> Pod -> bool.
Variable SelectCandidate : list Candidate -> option Candidate.

(** Modelled from the spec: the second half of the search on a node.
    Bring the removed pods back one by one; a pod that can return while
    the preemptor still fits is reprieved, the others are the victims. *)
Fixpoint reprieve (g : Plugin) (pod : Pod) (nodeInfo : NodeInfo) (state : CycleState)
    (removed : list PodInfo) : list Pod :=
  match removed with
  | [] => []
  | podInfo :: rest =>
      let added := (AddPod g state pod podInfo nodeInfo).1.2 in
      if fitsAttempt added pod then reprieve g pod nodeInfo added rest
      else
        Pod_of podInfo
        :: reprieve g pod nodeInfo (RemovePod g added pod podInfo nodeInfo).1.2 rest
  end.

(** Modelled from the spec: the plugin's [SelectVictimsOnNode], the
    preemption search on one node, restricted to victims that belong to
    the tenant of the pod being scheduled (§4.3) and run on the
    per-attempt accounting of [AddPod] and [RemovePod]. *)
Definition SelectVictimsOnNode (g : Plugin) (state : CycleState) (pod : Pod)
    (nodeInfo : NodeInfo) : option (list Pod) :=
  match getPostFilterState state with
  | inr _ => None
  | inl postFilterState =>
      let potentialVictims :=
        filter (fun podInfo =>
                  eligibleVictim pod (Pod_of podInfo) = true /\
                  IsPodExist (quotaInfo postFilterState) (Pod_of podInfo) = true)
               (Pods nodeInfo) in
      let removed :=
        (simulate pod (g, state)
                  ((fun podInfo => SimulatedRemove podInfo nodeInfo) <$> potentialVictims)).2 in
      if fitsAttempt removed pod
      then Some (reprieve g pod nodeInfo removed potentialVictims)
      else None
  end.

(** The upstream [preemption.Evaluator.Preempt] with the plugin as its
    interface, reduced to what decides the victims: one dry run per node
    through [SelectVictimsOnNode], then the choice of a candidate. *)
Definition Preempt (g : Plugin) (state : CycleState) (pod : Pod) (nodes : list NodeInfo)
  : option Candidate * Status :=
  let candidates :=
    omap (fun nodeInfo =>
            (fun vs => {| candidateNode := node_name nodeInfo; victims := vs |})
              <$> SelectVictimsOnNode g state pod nodeInfo) nodes in
  match SelectCandidate candidates with
  | Some c => (Some c, NewStatus Success (Text EmptyString))
  | None => (None, NewStatus Unschedulable (Text "no preemption victims found for incoming pod"))
  end.

(** [Plugin.PostFilter]: modify the default preemption, only allow pods
    in the same quota can preempt others. *)
Definition PostFilter (g : Plugin) (state : CycleState) (pod : Pod)
    (filteredNodes : list NodeInfo) : option Candidate * Status :=
  let '(result, status) := Preempt g state pod filteredNodes in
  if negb (isEmptyMessage (message status))
  then (result, NewStatus (code status) (Prefixed "preemption: " (message status)))
  else (result, status).

End Preemption.

(** ** Revoke controller *)

Module revoke.

(** Modelled from the spec: the controller behind
    [NewQuotaOverUsedRevokeController] (§4.4).  It keeps, per quota
    group, the time at which the group was first seen over its limit. *)
Record QuotaOverUsedRevokeController := {
  delayEvictTime : Z;            (* the grace period *)
  revokePodCycle : Z;            (* the tick interval *)
  monitorAllQuotas : bool;
  overUsedSince : gmap string Z
}.

Definition NewQuotaOverUsedRevokeController (delayEvictTime revokePodCycle : Z)
    (monitorAllQuotas : bool) : QuotaOverUsedRevokeController :=
  {| delayEvictTime := delayEvictTime; revokePodCycle := revokePodCycle;
     monitorAllQuotas := monitorAllQuotas; overUsedSince := ∅ |}.

(** [Plugin.NewControllers], the revoke controller of the three. *)
Definition NewControllers (g : Plugin) : QuotaOverUsedRevokeController :=
  NewQuotaOverUsedRevokeController
    (DelayEvictTime (pluginArgs g)) (RevokePodInterval (pluginArgs g))
    (MonitorAllQuotas (pluginArgs g)).

(** Modelled from the spec: [Used > Runtime], the admission comparison
    fails. *)
Definition isOverUsed (qi : QuotaInfo) : bool :=
  negb (LessThanOrEqual (Used qi) (Runtime qi)).1.

(** Modelled from the spec: the order of victims, lowest priority first,
    then most recently created first. *)
Definition evictBefore (a b : Pod) : Prop :=
  pod_priority a < pod_priority b \/
  (pod_priority a = pod_priority b /\ pod_created b <= pod_created a).

#[export] Instance evictBefore_dec a b : Decision (evictBefore a b).
Proof. unfold evictBefore. apply _. Defined.

(** Modelled from the spec: victims in eviction order until the group is
    back within bound. *)
Fixpoint selectVictims (used runtime : ResourceList) (ordered : list Pod) : list Pod :=
  match ordered with
  | [] => []
  | p :: rest =>
      if (LessThanOrEqual used runtime).1 then []
      else p :: selectVictims (SubtractWithNonNegativeResult used (PodRequestsAndLimits p))
                              runtime rest
  end.

Definition groupVictims (qi : QuotaInfo) : list Pod :=
  selectVictims (Used qi) (Runtime qi) (merge_sort evictBefore (map_to_list (PodCache qi)).*2).

Section Tick.

(** The configured bound on eviction requests per tick; the constructor
    call in [NewControllers] passes none, it is a parameter here. *)
Variable evictionsPerTick : nat.

(** Modelled from the spec: the over-limit timestamps after a tick at
    [now]: a group over its limit keeps the time it was first seen, or
    gets [now]; a group within its limit has none. *)
Definition observe (ctrl : QuotaOverUsedRevokeController) (now : Z)
    (gqm : GroupQuotaManager) : gmap string Z :=
  map_imap (fun name qi =>
              if isOverUsed qi then Some (default now (overUsedSince ctrl !! name))
              else None)
           (quotaInfoMap gqm).

Definition graceExpired (ctrl : QuotaOverUsedRevokeController) (now : Z)
    (since : gmap string Z) (name : string) : bool :=
  match since !! name with
  | Some t => bool_decide (delayEvictTime ctrl < now - t)
  | None => false
  end.

(** Modelled from the spec: one tick, giving the controller afterwards
    and the eviction requests it issues, each with the quota group it is
    issued for. *)
Definition tick (ctrl : QuotaOverUsedRevokeController) (now : Z) (gqm : GroupQuotaManager)
  : QuotaOverUsedRevokeController * list (string * Pod) :=
  let since := observe ctrl now gqm in
  let due :=
    filter (fun nq => graceExpired ctrl now since nq.1 = true)
           (map_to_list (quotaInfoMap gqm)) in
  let requests :=
    due ≫= (fun nq => (fun p => (nq.1, p)) <$> groupVictims nq.2) in
  ({| delayEvictTime := delayEvictTime ctrl; revokePodCycle := revokePodCycle ctrl;
      monitorAllQuotas := monitorAllQuotas ctrl; overUsedSince := since |},
   take evictionsPerTick requests).

(** The controller run over the ticks of a trace: the time of each
    tick and the tree it reads then. *)
Fixpoint runTicks (ctrl : QuotaOverUsedRevokeController)
    (trace : list (Z * GroupQuotaManager)) : list (list (string * Pod)) :=
  match trace with
  | [] => []
  | (now, gqm) :: rest =>
      (tick ctrl now gqm).2 :: runTicks (tick ctrl now gqm).1 rest
  end.

End Tick.

(** The group is in the tree and over its limit. *)
Definition overUsedIn (gqm : GroupQuotaManager) (name : string) : Prop :=
  exists qi, quotaInfoMap gqm !! name = Some qi /\ isOverUsed qi = true.

End revoke.

Import revoke.

(** What the timestamps of a controller say about the ticks before it:
    a recorded time is the time of an earlier tick, and the group was over
    its limit at that tick and at every tick since. *)
Definition sinceSound (ctrl : QuotaOverUsedRevokeController)
    (past : list (Z * GroupQuotaManager)) : Prop :=
  forall name t,
    overUsedSince ctrl !! name = Some t ->
    exists j gj,
      past !! j = Some (t, gj) /\
      forall k tk gk, (j <= k)%nat -> past !! k = Some (tk, gk) -> overUsedIn gk name.

(** ** Fixtures: the tenant of Scenario C and a few workloads *)

Definition resources (l : list (ResourceName * Quantity)) : ResourceList := list_to_map l.

Definition workload (key : string) (quotaName : option string) (priority : Z)
    (requests : ResourceList) : Pod :=
  {| pod_key := key; pod_quotaName := quotaName; pod_isReserve := false;
     pod_priority := priority; pod_created := 0; pod_requests := requests |}.

Definition runningPod : Pod :=
  workload "ns/running" (Some "team-a"%string) 5 (resources [("cpu"%string, 45)]).

Definition teamA : QuotaInfo :=
  {| Name := "team-a"; ParentName := Some "root"%string;
     Min := ∅; Max := resources [("cpu"%string, 100)]; SharedWeight := ∅;
     Used := resources [("cpu"%string, 45)];
     Request := resources [("cpu"%string, 45)];
     Runtime := resources [("cpu"%string, 50)];
     PodCache := {[ "ns/running"%string := runningPod ]} |}.

Definition rootQuota : QuotaInfo :=
  {| Name := "root"; ParentName := None;
     Min := ∅; Max := resources [("cpu"%string, 48)]; SharedWeight := ∅;
     Used := resources [("cpu"%string, 45)];
     Request := resources [("cpu"%string, 45)];
     Runtime := resources [("cpu"%string, 48)];
     PodCache := ∅ |}.

Definition defaultQuota : QuotaInfo :=
  {| Name := "default"; ParentName := Some "root"%string;
     Min := ∅; Max := resources [("cpu"%string, 10)]; SharedWeight := ∅;
     Used := ∅; Request := ∅;
     Runtime := resources [("cpu"%string, 10)];
     PodCache := ∅ |}.

Definition scenarioTree (strict : bool) : GroupQuotaManager :=
  {| quotaInfoMap :=
       <["team-a"%string := teamA]>
         (<["default"%string := defaultQuota]> {[ "root"%string := rootQuota ]});
     strictMode := strict |}.

Definition scenarioArgs (checkParent : bool) : ElasticQuotaArgs :=
  {| EnableCheckParentQuota := checkParent; DelayEvictTime := 10;
     RevokePodInterval := 1; MonitorAllQuotas := false |}.

Definition scenarioPlugin (checkParent strict : bool) : Plugin :=
  {| pluginArgs := scenarioArgs checkParent; groupQuotaManager := scenarioTree strict |}.

Definition cpuPod (n : Z) : Pod :=
  workload "ns/candidate" (Some "team-a"%string) 10 (resources [("cpu"%string, n)]).

Definition gpuPod : Pod :=
  workload "ns/trainer" (Some "team-a"%string) 10 (resources [("gpu"%string, 1)]).

(** The per-attempt state [PreFilter] leaves for the tenant of Scenario C. *)
Definition scenarioState : CycleState :=
  Some {| quotaInfo := teamA; used := Used teamA; runtime := Runtime teamA |}.

Definition onNode (pod : Pod) : PodInfo := {| Pod_of := pod |}.

Definition node1 : NodeInfo := {| node_name := "node-1"; Pods := [onNode runningPod] |}.

Definition reservePod : Pod :=
  {| pod_key := "ns/reservation"; pod_quotaName := Some "team-a"%string;
     pod_isReserve := true; pod_priority := 5; pod_created := 0;
     pod_requests := resources [("cpu"%string, 3)] |}.

Definition strayPod : Pod :=
  workload "ns/stray" (Some "team-x"%string) 1 (resources [("cpu"%string, 4)]).

(** A node that carries the tenant's running pod and a pod of another
    tenant; the evaluator here evicts lower priorities only and takes the
    first candidate. *)
Definition foreignPod : Pod :=
  workload "ns/foreign" (Some "team-b"%string) 1 (resources [("cpu"%string, 30)]).

Definition node2 : NodeInfo :=
  {| node_name := "node-2"; Pods := [onNode foreignPod; onNode runningPod] |}.

Definition lowerPriority (pod victim : Pod) : bool :=
  bool_decide (pod_priority victim < pod_priority pod).

(** A tree in which the tenant of Scenario C is over its limit (45 used
    of 40), observed at times 0, 5 and 11 with a grace period of 10. *)
Definition overTree : GroupQuotaManager :=
  {| quotaInfoMap :=
       {[ "team-a"%string :=
            {| Name := "team-a"; ParentName := None; Min := ∅;
               Max := resources [("cpu"%string, 100)]; SharedWeight := ∅;
               Used := resources [("cpu"%string, 45)];
               Request := resources [("cpu"%string, 45)];
               Runtime := resources [("cpu"%string, 40)];
               PodCache := {[ "ns/running"%string := runningPod ]} |} ]};
     strictMode := false |}.

Definition overTrace : list (Z * GroupQuotaManager) :=
  [(0, overTree); (5, overTree); (11, overTree)].

(** ** Load-aware scoring and filtering ([package loadaware]) *)

(** Go's [int64]: sums, differences and products wrap around, the
    quotient truncates toward zero. *)
Definition wrap64 (z : Z) : Z := (z + 2 ^ 63) mod 2 ^ 64 - 2 ^ 63.

Definition isInt64 (z : Z) : Prop := - 2 ^ 63 <= z < 2 ^ 63.

(** [fmt.Sprintf] for a format with one [%s] verb and a string argument. *)
Fixpoint Sprintf (format : string) (arg : string) : string :=
  match format with
  | String "%"%char (String "s"%char rest) => arg +:+ rest
  | String c rest => String c (Sprintf rest arg)
  | EmptyString => EmptyString
  end.

Module loadaware.

Definition ErrReasonNodeMetricExpired : string := "node(s) nodeMetric expired".
Definition ErrReasonUsageExceedThreshold : string := "node(s) %s usage exceed threshold".
Definition ErrReasonAggregatedUsageExceedThreshold : string :=
  "node(s) %s aggregated usage exceed threshold".

(** [framework.MaxNodeScore]. *)
Definition MaxNodeScore : Z := 100.

(** One second as a [time.Duration], in nanoseconds. *)
Definition Second : Z := 1000000000.

(** A [corev1.PodCondition], its time in nanoseconds since the zero time. *)
Record PodCondition := {
  condType : string;
  condStatus : string;
  condLastTransitionTime : Z
}.

Definition PodInitialized : string := "Initialized".
Definition ConditionTrue : string := "True".

(** The parts of a [corev1.Pod] the load-aware plugin reads; the two
    custom values are what [extension.GetCustomEstimatedSecondsAfter...]
    return for the pod. *)
Record Pod := {
  podNamespace : string;
  podName : string;
  podIsProd : bool;
  customEstimatedSecondsAfterPodScheduled : Z;
  customEstimatedSecondsAfterInitialized : Z;
  podConditions : list PodCondition
}.

(** [podAssignInfo]: when the pod was assigned, the pod, and its
    estimated usage (nil when there is none). *)
Record podAssignInfo := {
  timestamp : Z;
  pod : Pod;
  estimated : option (gmap string Z)
}.

(** The fields of [config.LoadAwareSchedulingArgs] read below. *)
Record LoadAwareSchedulingArgs := {
  ResourceWeights : gmap string Z;
  AllowCustomizeEstimation : bool;
  EstimatedSecondsAfterPodScheduled : option Z;
  EstimatedSecondsAfterInitialized : option Z
}.

(** The aggregated part of a filter profile and the profile itself, as
    [Filter] and [filterNodeUsage] use them. *)
Record AggregatedUsageProfile := {
  AggregatedUsageThresholds : gmap string Z;
  UsageAggregatedDuration : Z;
  UsageAggregationType : string
}.

Record usageThresholdsFilterProfile := {
  UsageThresholds : gmap string Z;
  ProdUsageThresholds : gmap string Z;
  AggregatedUsage : option AggregatedUsageProfile
}.

(** [podutil.GetPodCondition]: the first condition of the given type. *)
Definition GetPodCondition (conditions : list PodCondition) (conditionType : string)
  : option PodCondition :=
  snd <$> list_find (fun c => condType c = conditionType) conditions.

(** [leastUsedScore]. *)
Definition leastUsedScore (used capacity : Z) : Z :=
  if decide (capacity = 0) then 0
  else if decide (used > capacity) then 0
  else wrap64 (Z.quot (wrap64 (wrap64 (capacity - used) * MaxNodeScore)) capacity).

(** [Plugin.shouldEstimatePodByConfig]. *)
Definition shouldEstimatePodByConfig (args : LoadAwareSchedulingArgs) (info : podAssignInfo)
    (now : Z) : bool :=
  let '(afterPodScheduled, afterInitialized) :=
    if AllowCustomizeEstimation args
    then (customEstimatedSecondsAfterPodScheduled (pod info),
          customEstimatedSecondsAfterInitialized (pod info))
    else (-1, -1) in
  let afterPodScheduled :=
    match EstimatedSecondsAfterPodScheduled args with
    | Some s => if decide (afterPodScheduled < 0) then s else afterPodScheduled
    | None => afterPodScheduled
    end in
  let afterInitialized :=
    match EstimatedSecondsAfterInitialized args with
    | Some s => if decide (afterInitialized < 0) then s else afterInitialized
    | None => afterInitialized
    end in
  let initializedAt :=
    if decide (afterInitialized > 0) then
      match GetPodCondition (podConditions (pod info)) PodInitialized with
      | Some c =>
          if decide (condStatus c = ConditionTrue) then
            if decide (condLastTransitionTime c = 0) then None
            else Some (condLastTransitionTime c)
          else None
      | None => None
      end
    else None in
  match initializedAt with
  | Some t => bool_decide (now < t + wrap64 (afterInitialized * Second))
  | None =>
      if decide (afterPodScheduled > 0) then
        bool_decide (now < timestamp info + wrap64 (afterPodScheduled * Second))
      else false
  end.

(** What [GetEstimatedUsed] and [estimatedAssignedPodUsed] read of a
    [slov1alpha1.NodeMetric], directly or through helpers whose bodies
    are not among the sources at hand: [Status.UpdateTime], nil or a
    time; whether [Status.NodeMetric] is there; what
    [getNodeMetricReportInterval] returns for it; whether
    [scoreWithAggregation(...) && getTargetAggregatedUsage(...) == nil]
    holds for it; and what [buildPodMetricMap] returns for it and the
    given [prodPod]. *)
Record NodeMetric := {
  StatusUpdateTime : option Z;
  StatusNodeMetric : bool;
  ReportInterval : Z;
  TargetAggregatedUsageMissing : bool;
  PodMetricMap : bool -> gmap (string * string) ResourceList
}.

Section Quantities.

(** [getResourceValue] turns a quantity into the [int64] the plugin
    counts in (its body is not among the sources at hand). *)
Variable getResourceValue : ResourceName -> Quantity -> Z.

(** [int64(math.Round(float64(estimatedUsed) / float64(total) * 100))],
    the usage in percent; computed in floating point and kept abstract. *)
Variable usagePercent : Z -> Z -> Z.

(** The loop of [loadAwareSchedulingScorer] over the weights in a given
    order, from the sums so far. *)
Definition scoreLoop (used : gmap string Z) (allocatable : ResourceList)
    (entries : list (ResourceName * Z)) (sums : Z * Z) : Z * Z :=
  foldl (fun '(nodeScore, weightSum) '(resourceName, weight) =>
           let resourceScore :=
             leastUsedScore (qty used resourceName)
                            (getResourceValue resourceName (qty allocatable resourceName)) in
           (wrap64 (nodeScore + wrap64 (resourceScore * weight)),
            wrap64 (weightSum + weight)))
        sums entries.

(** [loadAwareSchedulingScorer] over the weights in a given order; [None]
    is the panic of the integer division by a zero sum of weights. *)
Definition loadAwareSchedulingScorerIn (entries : list (ResourceName * Z))
    (used : gmap string Z) (allocatable : ResourceList) : option Z :=
  let '(nodeScore, weightSum) := scoreLoop used allocatable entries (0, 0) in
  if decide (weightSum = 0) then None
  else Some (wrap64 (Z.quot nodeScore weightSum)).

(** [loadAwareSchedulingScorer]. *)
Definition loadAwareSchedulingScorer (resToWeightMap used : gmap string Z)
    (allocatable : ResourceList) : option Z :=
  loadAwareSchedulingScorerIn (map_to_list resToWeightMap) used allocatable.

(** The loop of [filterNodeUsage] over the thresholds in a given order. *)
Fixpoint filterNodeUsageIn (entries : list (ResourceName * Z))
    (estimatedUsed : gmap string Z) (allocatable : ResourceList) (prodPod : bool)
    (filterProfile : usageThresholdsFilterProfile) : option Status :=
  match entries with
  | [] => None
  | (resourceName, value) :: rest =>
      if decide (value = 0)
      then filterNodeUsageIn rest estimatedUsed allocatable prodPod filterProfile
      else
        let total := getResourceValue resourceName (qty allocatable resourceName) in
        if decide (total = 0)
        then filterNodeUsageIn rest estimatedUsed allocatable prodPod filterProfile
        else
          let usage := usagePercent (qty estimatedUsed resourceName) total in
          if decide (usage <= value)
          then filterNodeUsageIn rest estimatedUsed allocatable prodPod filterProfile
          else
            let reason :=
              if negb prodPod && bool_decide (is_Some (AggregatedUsage filterProfile))
              then ErrReasonAggregatedUsageExceedThreshold
              else ErrReasonUsageExceedThreshold in
            Some (NewStatus Unschedulable (Text (Sprintf reason resourceName)))
  end.

(** [filterNodeUsage]; Go ranges over the thresholds in an order it
    leaves open, here the order of [map_to_list]. *)
Definition filterNodeUsage (usageThresholds estimatedUsed : gmap string Z)
    (allocatable : ResourceList) (prodPod : bool)
    (filterProfile : usageThresholdsFilterProfile) : option Status :=
  filterNodeUsageIn (map_to_list usageThresholds) estimatedUsed allocatable prodPod
                    filterProfile.

(** A threshold entry at which [filterNodeUsage] rejects. *)
Definition overThreshold (estimatedUsed : gmap string Z) (allocatable : ResourceList)
    (entry : ResourceName * Z) : Prop :=
  entry.2 <> 0 /\
  getResourceValue entry.1 (qty allocatable entry.1) <> 0 /\
  entry.2 < usagePercent (qty estimatedUsed entry.1)
                         (getResourceValue entry.1 (qty allocatable entry.1)).

(** The score of one weighted resource, and the two sums the scorer
    accumulates, without the wrap-around. *)
Definition resourceScore (used : gmap string Z) (allocatable : ResourceList)
    (entry : ResourceName * Z) : Z :=
  leastUsedScore (qty used entry.1) (getResourceValue entry.1 (qty allocatable entry.1)).

Definition weightedScores (used : gmap string Z) (allocatable : ResourceList)
    (entries : list (ResourceName * Z)) : Z :=
  foldr (fun entry acc => resourceScore used allocatable entry * entry.2 + acc) 0 entries.

(** [missedLatestUpdateTime] and [stillInTheReportInterval] compare the
    time of assignment with the last report of the node metric (their
    bodies are not among the sources at hand). *)
Variable missedLatestUpdateTime : Z -> Z -> bool.
Variable stillInTheReportInterval : Z -> Z -> Z -> bool.

(** The inner loop body of [estimatedAssignedPodUsed] for one resource:
    the estimate, or the reported usage when that is larger. *)
Definition estimatedValue (podUsage : ResourceList) (resourceName : ResourceName)
    (value : Z) : Z :=
  match podUsage !! resourceName with
  | Some quantity =>
      let usage := getResourceValue resourceName quantity in
      if decide (usage > value) then usage else value
  | None => value
  end.

(** The inner loop of [estimatedAssignedPodUsed]: every estimated
    resource of the pod is added to the sums. *)
Definition addEstimated (estimated : gmap string Z) (podUsage : ResourceList)
    (estimatedUsed : gmap string Z) : gmap string Z :=
  map_fold (fun resourceName value acc =>
              <[resourceName :=
                  wrap64 (qty acc resourceName + estimatedValue podUsage resourceName value)]>
                acc)
           estimatedUsed estimated.

(** The condition under which [estimatedAssignedPodUsed] estimates an
    assigned pod; [aggregatedUsageMissing] stands for
    [scoreWithAggregation(...) && getTargetAggregatedUsage(...) == nil]. *)
Definition needsEstimate (args : LoadAwareSchedulingArgs) (nodeMetricUpdateTime : Z)
    (nodeMetricReportInterval : Z) (aggregatedUsageMissing : bool)
    (podUsage : ResourceList) (assignInfo : podAssignInfo) (now : Z) : bool :=
  bool_decide (size podUsage = 0%nat)
  || missedLatestUpdateTime (timestamp assignInfo) nodeMetricUpdateTime
  || stillInTheReportInterval (timestamp assignInfo) nodeMetricUpdateTime
                              nodeMetricReportInterval
  || aggregatedUsageMissing
  || shouldEstimatePodByConfig args assignInfo now.

Definition namespacedName (p : Pod) : string * string := (podNamespace p, podName p).

(** The body of the loop of [estimatedAssignedPodUsed] over the assigned
    pods, on the sums and the set of estimated pods so far. *)
Definition estimateStep (args : LoadAwareSchedulingArgs) (now : Z)
    (nodeMetricUpdateTime : Z) (nodeMetricReportInterval : Z)
    (aggregatedUsageMissing : bool) (podMetrics : gmap (string * string) ResourceList)
    (filterProdPod : bool) (acc : gmap string Z * gset (string * string))
    (assignInfo : podAssignInfo) : gmap string Z * gset (string * string) :=
  let '(estimatedUsed, estimatedPods) := acc in
  if filterProdPod && negb (podIsProd (pod assignInfo))
  then (estimatedUsed, estimatedPods)
  else
    let podName := namespacedName (pod assignInfo) in
    let podUsage := default ∅ (podMetrics !! podName) in
    if needsEstimate args nodeMetricUpdateTime nodeMetricReportInterval
                     aggregatedUsageMissing podUsage assignInfo now
    then
      match estimated assignInfo with
      | None => (estimatedUsed, estimatedPods)
      | Some estimated =>
          (addEstimated estimated podUsage estimatedUsed, {[podName]} ∪ estimatedPods)
      end
    else (estimatedUsed, estimatedPods).

(** [Plugin.estimatedAssignedPodUsed] over the pods that the assign cache
    holds for the node, at time [now]; [updateTime] is the node metric's
    [Status.UpdateTime], nil or a time. *)
Definition estimatedAssignedPodUsed (args : LoadAwareSchedulingArgs)
    (assignedPodsOnNode : list podAssignInfo) (now : Z) (updateTime : option Z)
    (nodeMetricReportInterval : Z) (aggregatedUsageMissing : bool)
    (podMetrics : gmap (string * string) ResourceList) (filterProdPod : bool)
  : gmap string Z * gset (string * string) :=
  let nodeMetricUpdateTime := default 0 updateTime in
  foldl (estimateStep args now nodeMetricUpdateTime nodeMetricReportInterval
                      aggregatedUsageMissing podMetrics filterProdPod)
        (∅, ∅) assignedPodsOnNode.

(** Whether an assigned pod enters the estimate, and what it adds for a
    resource when it does. *)
Definition counted (args : LoadAwareSchedulingArgs) (now : Z) (updateTime : option Z)
    (nodeMetricReportInterval : Z) (aggregatedUsageMissing : bool)
    (podMetrics : gmap (string * string) ResourceList) (filterProdPod : bool)
    (assignInfo : podAssignInfo) : bool :=
  negb (filterProdPod && negb (podIsProd (pod assignInfo)))
  && needsEstimate args (default 0 updateTime) nodeMetricReportInterval
                   aggregatedUsageMissing
                   (default ∅ (podMetrics !! namespacedName (pod assignInfo)))
                   assignInfo now
  && bool_decide (is_Some (estimated assignInfo)).

Definition contribution (podMetrics : gmap (string * string) ResourceList)
    (resourceName : ResourceName) (assignInfo : podAssignInfo) : Z :=
  match estimated assignInfo with
  | Some estimated =>
      match estimated !! resourceName with
      | Some value =>
          estimatedValue (default ∅ (podMetrics !! namespacedName (pod assignInfo)))
                         resourceName value
      | None => 0
      end
  | None => 0
  end.

(** The estimates alone of the counted pods for a resource. *)
Definition countedEstimates (args : LoadAwareSchedulingArgs) (now : Z)
    (updateTime : option Z) (nodeMetricReportInterval : Z) (aggregatedUsageMissing : bool)
    (podMetrics : gmap (string * string) ResourceList) (filterProdPod : bool)
    (resourceName : ResourceName) (assignedPodsOnNode : list podAssignInfo) : Z :=
  foldr (fun assignInfo acc =>
           (if counted args now updateTime nodeMetricReportInterval aggregatedUsageMissing
                       podMetrics filterProdPod assignInfo
            then qty (default ∅ (estimated assignInfo)) resourceName else 0) + acc)
        0 assignedPodsOnNode.

(** What the counted pods among [assignedPodsOnNode] add up to for a
    resource, without the wrap-around. *)
Definition countedContributions (args : LoadAwareSchedulingArgs) (now : Z)
    (updateTime : option Z) (nodeMetricReportInterval : Z) (aggregatedUsageMissing : bool)
    (podMetrics : gmap (string * string) ResourceList) (filterProdPod : bool)
    (resourceName : ResourceName) (assignedPodsOnNode : list podAssignInfo) : Z :=
  foldr (fun assignInfo acc =>
           (if counted args now updateTime nodeMetricReportInterval aggregatedUsageMissing
                       podMetrics filterProdPod assignInfo
            then contribution podMetrics resourceName assignInfo else 0) + acc)
        0 assignedPodsOnNode.

(** [sumPodUsages] returns the reported usage of the pods, and apart
    from it that of the estimated pods among them (its body is not among
    the sources at hand). *)
Variable sumPodUsages :
  gmap (string * string) ResourceList -> gset (string * string) ->
  ResourceList * ResourceList.

(** A loop [for resourceName, value := range values] with the body
    [estimatedUsed[resourceName] += valueOf(resourceName, value)]. *)
Definition addValues (valueOf : ResourceName -> Z -> Z) (values : gmap string Z)
    (estimatedUsed : gmap string Z) : gmap string Z :=
  map_fold (fun resourceName value acc =>
              <[resourceName := wrap64 (qty acc resourceName + valueOf resourceName value)]>
                acc)
           estimatedUsed values.

(** The node usage of a resource as [GetEstimatedUsed] counts it: less
    the reported usage [q] of the estimated pods, unless [q] is zero or
    more than the node usage. *)
Definition nodeUsageLess (quantity q : Quantity) : Quantity :=
  if decide (q = 0) then quantity
  else if decide (quantity >= q) then quantity - q
       else quantity.

(** [Plugin.GetEstimatedUsed] for a node with the pods
    [assignedPodsOnNode] in the assign cache, at time [now]; [estimate]
    is what [p.estimator.EstimatePod(pod)] returns, a map or an error.
    The result is the pair of the map (nil or not) and the error (nil or
    not). *)
Definition GetEstimatedUsed (args : LoadAwareSchedulingArgs)
    (assignedPodsOnNode : list podAssignInfo) (now : Z) (nodeMetric : option NodeMetric)
    (estimate : gmap string Z + string) (nodeUsage : option ResourceList) (prodPod : bool)
  : option (gmap string Z) * option string :=
  match nodeMetric with
  | None => (None, None)
  | Some nodeMetric =>
      let podMetrics := PodMetricMap nodeMetric prodPod in
      match estimate with
      | inr err => (None, Some err)
      | inl estimatedUsed =>
          let '(assignedPodEstimatedUsed, estimatedPods) :=
            estimatedAssignedPodUsed args assignedPodsOnNode now
              (StatusUpdateTime nodeMetric) (ReportInterval nodeMetric)
              (TargetAggregatedUsageMissing nodeMetric) podMetrics prodPod in
          let estimatedUsed :=
            addValues (fun _ value => value) assignedPodEstimatedUsed estimatedUsed in
          let '(podActualUsages, estimatedPodActualUsages) :=
            sumPodUsages podMetrics estimatedPods in
          let estimatedUsed :=
            if prodPod
            then addValues getResourceValue podActualUsages estimatedUsed
            else
              if StatusNodeMetric nodeMetric then
                match nodeUsage with
                | Some nodeUsage =>
                    addValues
                      (fun resourceName quantity =>
                         getResourceValue resourceName
                           (nodeUsageLess quantity (qty estimatedPodActualUsages resourceName)))
                      nodeUsage estimatedUsed
                | None => estimatedUsed
                end
              else estimatedUsed in
          (Some estimatedUsed, None)
      end
  end.

(** What [GetEstimatedUsed] adds for a resource on top of the estimates:
    for a prod pod the reported usage of the pods, else the node usage
    less that of the estimated pods. *)
Definition countedUsage (nodeMetric : NodeMetric)
    (podActualUsages estimatedPodActualUsages : ResourceList)
    (nodeUsage : option ResourceList) (prodPod : bool) (resourceName : ResourceName) : Z :=
  if prodPod then
    match podActualUsages !! resourceName with
    | Some quantity => getResourceValue resourceName quantity
    | None => 0
    end
  else
    match nodeUsage with
    | Some nodeUsage =>
        match nodeUsage !! resourceName with
        | Some quantity =>
            if StatusNodeMetric nodeMetric
            then getResourceValue resourceName
                   (nodeUsageLess quantity (qty estimatedPodActualUsages resourceName))
            else 0
        | None => 0
        end
    | None => 0
    end.

End Quantities.

Definition totalWeight (entries : list (ResourceName * Z)) : Z :=
  foldr (fun entry acc => entry.2 + acc) 0 entries.

End loadaware.

(** The seconds an estimation window lasts after the two assignments of
    [shouldEstimatePodByConfig]: the pod's custom value when customizing
    is allowed, replaced by the configured value when it is negative. *)
Definition effectiveSeconds (allowCustomize : bool) (custom : Z) (configured : option Z)
  : Z :=
  let seconds := if allowCustomize then custom else -1 in
  match configured with
  | Some s => if decide (seconds < 0) then s else seconds
  | None => seconds
  end.

(** The status [filterNodeUsage] rejects with at a resource. *)
Definition rejection (prodPod : bool) (filterProfile : loadaware.usageThresholdsFilterProfile)
    (resourceName : ResourceName) : Status :=
  NewStatus Unschedulable
    (Text (Sprintf
             (if negb prodPod && bool_decide (is_Some (loadaware.AggregatedUsage filterProfile))
              then loadaware.ErrReasonAggregatedUsageExceedThreshold
              else loadaware.ErrReasonUsageExceedThreshold)
             resourceName)).

(** Every sum of a map of [int64] sums is an [int64]. *)
Definition inRange (estimatedUsed : gmap string Z) : Prop :=
  forall resourceName value, estimatedUsed !! resourceName = Some value -> isInt64 value.

(** A [getResourceValue] that counts every resource in its base unit. *)
Definition plainValue (resourceName : ResourceName) (quantity : Quantity) : Z := quantity.

(** A usage in percent for the examples: exact rounding to the nearest
    integer, halves up.  The source rounds a [float64] product, which
    can fall on the other side of a half (29 of 200 is 14 there, 15
    here); the examples use it where the two agree. *)
Definition roundedPercent (estimatedUsed total : Z) : Z :=
  (2 * 100 * estimatedUsed + total) / (2 * total).

Definition nodeWeights : gmap string Z :=
  resources [("cpu"%string, 1); ("memory"%string, 3)].

Definition nodeUsed : gmap string Z :=
  resources [("cpu"%string, 1500); ("memory"%string, 2048)].

Definition nodeAllocatable : ResourceList :=
  resources [("cpu"%string, 4000); ("memory"%string, 8192)].

Definition nodeThresholds : gmap string Z :=
  resources [("cpu"%string, 30); ("memory"%string, 0)].

Definition plainProfile : loadaware.usageThresholdsFilterProfile :=
  {| loadaware.UsageThresholds := nodeThresholds;
     loadaware.ProdUsageThresholds := ∅;
     loadaware.AggregatedUsage := None |}.

(** ** Further derived notions and fixtures *)

(** One request asks at least as much as another: every entry of the
    smaller one is matched by an entry at least as large, and what the
    larger one asks beyond that is not negative. *)
Definition requestLe (r r' : ResourceList) : Prop :=
  forall k,
    match r !! k, r' !! k with
    | Some x, Some x' => x <= x'
    | Some _, None => False
    | None, Some x' => 0 <= x'
    | None, None => True
    end.

Definition addsOf (nodeInfo : NodeInfo) (pods : list PodInfo) : list SimOp :=
  (fun podInfo => SimulatedAdd podInfo nodeInfo) <$> pods.

Definition removesOf (nodeInfo : NodeInfo) (pods : list PodInfo) : list SimOp :=
  (fun podInfo => SimulatedRemove podInfo nodeInfo) <$> pods.

(** The requests, in one dimension, of the pods among [pods] that the
    per-attempt accounting counts. *)
Definition accountedRequests (s : PostFilterState) (pods : list PodInfo) (k : ResourceName)
  : Z :=
  foldr (fun podInfo acc =>
           (if accounted (Some s) (Pod_of podInfo)
            then qty (PodRequestsAndLimits (Pod_of podInfo)) k else 0) + acc)
        0 pods.

(** The pods of a list that the accounting counts request nothing
    negative. *)
Definition accountedNonneg (s : PostFilterState) (pods : list PodInfo) : Prop :=
  Forall (fun podInfo =>
            accounted (Some s) (Pod_of podInfo) = true ->
            nonneg (PodRequestsAndLimits (Pod_of podInfo))) pods.

Definition initializedPod : loadaware.Pod :=
  {| loadaware.podNamespace := "ns"; loadaware.podName := "web-0";
     loadaware.podIsProd := true;
     loadaware.customEstimatedSecondsAfterPodScheduled := -1;
     loadaware.customEstimatedSecondsAfterInitialized := -1;
     loadaware.podConditions :=
       [ {| loadaware.condType := "PodScheduled"; loadaware.condStatus := "True";
            loadaware.condLastTransitionTime := 1000 * loadaware.Second |};
         {| loadaware.condType := "Initialized"; loadaware.condStatus := "True";
            loadaware.condLastTransitionTime := 1060 * loadaware.Second |} ] |}.

Definition initializedInfo : loadaware.podAssignInfo :=
  {| loadaware.timestamp := 1000 * loadaware.Second; loadaware.pod := initializedPod;
     loadaware.estimated := Some (resources [("cpu"%string, 500)]) |}.

Definition estimationArgs : loadaware.LoadAwareSchedulingArgs :=
  {| loadaware.ResourceWeights := nodeWeights;
     loadaware.AllowCustomizeEstimation := false;
     loadaware.EstimatedSecondsAfterPodScheduled := Some 600;
     loadaware.EstimatedSecondsAfterInitialized := Some 30 |}.

Definition optedOutPod : loadaware.Pod :=
  {| loadaware.podNamespace := "ns"; loadaware.podName := "batch-7";
     loadaware.podIsProd := false;
     loadaware.customEstimatedSecondsAfterPodScheduled := 0;
     loadaware.customEstimatedSecondsAfterInitialized := 0;
     loadaware.podConditions := [] |}.

Definition customizingArgs : loadaware.LoadAwareSchedulingArgs :=
  {| loadaware.ResourceWeights := nodeWeights;
     loadaware.AllowCustomizeEstimation := true;
     loadaware.EstimatedSecondsAfterPodScheduled := Some 600;
     loadaware.EstimatedSecondsAfterInitialized := Some 30 |}.

Definition batchPod : Pod :=
  workload "ns/batch" (Some "team-a"%string) 2 (resources [("cpu"%string, 40)]).

Definition crowdedState : CycleState :=
  Some {| quotaInfo :=
            {| Name := "team-a"; ParentName := None; Min := ∅;
               Max := resources [("cpu"%string, 100)]; SharedWeight := ∅;
               Used := resources [("cpu"%string, 60)];
               Request := resources [("cpu"%string, 85)];
               Runtime := resources [("cpu"%string, 60)];
               PodCache := <["ns/batch"%string := batchPod]>
                             {[ "ns/running"%string := runningPod ]} |};
          used := resources [("cpu"%string, 60)];
          runtime := resources [("cpu"%string, 60)] |}.

(** Two ways to compare the assignment with the last report: assigned
    after the report, and assigned less than an interval before it. *)
Definition assignedAfterReport (assignedTime updateTime : Z) : bool :=
  bool_decide (updateTime < assignedTime).

Definition reportedWithinInterval (assignedTime updateTime reportInterval : Z) : bool :=
  bool_decide (assignedTime < updateTime) && bool_decide (updateTime - assignedTime < reportInterval).

Definition nodePodMetrics : gmap (string * string) ResourceList :=
  {[ ("ns"%string, "web-0"%string) := resources [("cpu"%string, 700); ("memory"%string, 64)] ]}.

Definition assignedOnNode : list loadaware.podAssignInfo :=
  [ initializedInfo;
    {| loadaware.timestamp := 1000 * loadaware.Second; loadaware.pod := optedOutPod;
       loadaware.estimated := None |} ].

(** A node metric reported at second 1070, and a way to sum the reported
    usages: all pods, and the estimated ones among them. *)
Definition reportedNodeMetric : loadaware.NodeMetric :=
  {| loadaware.StatusUpdateTime := Some (1070 * loadaware.Second);
     loadaware.StatusNodeMetric := true;
     loadaware.ReportInterval := 60 * loadaware.Second;
     loadaware.TargetAggregatedUsageMissing := false;
     loadaware.PodMetricMap := fun _ => nodePodMetrics |}.

Definition summedUsages (podMetrics : gmap (string * string) ResourceList)
    (estimatedPods : gset (string * string)) : ResourceList * ResourceList :=
  map_fold (fun name usage sums =>
              (Add sums.1 usage,
               if decide (name ∈ estimatedPods) then Add sums.2 usage else sums.2))
           (∅, ∅) podMetrics.

Definition podEstimate : gmap string Z := resources [("cpu"%string, 250)].

(* ================================================================= *)
(** * Part II: properties *)

(** ** Resource lists *)

Lemma lookup_Add a b k :
  Add a b !! k =
  match a !! k, b !! k with
  | Some x, Some y => Some (x + y)
  | Some x, None => Some x
  | None, o => o
  end.
Proof.
  unfold Add. rewrite lookup_union_with.
  destruct (a !! k), (b !! k); reflexivity.
Qed.

Lemma qty_Add a b k : qty (Add a b) k = qty a k + qty b k.
Proof.
  unfold qty. rewrite lookup_Add.
  destruct (a !! k), (b !! k); simpl; lia.
Qed.

Lemma lookup_Subtract a b k :
  SubtractWithNonNegativeResult a b !! k =
  match a !! k, b !! k with
  | Some u, Some r => Some (Z.max 0 (u - r))
  | Some u, None => Some (Z.max 0 u)
  | None, Some _ => Some 0
  | None, None => None
  end.
Proof.
  unfold SubtractWithNonNegativeResult. rewrite lookup_merge.
  destruct (a !! k) as [u|], (b !! k) as [r|]; simpl; try reflexivity;
    case_decide; f_equal; lia.
Qed.

Lemma Subtract_nonneg a b : nonneg (SubtractWithNonNegativeResult a b).
Proof.
  intros k v. rewrite lookup_Subtract.
  destruct (a !! k) as [u|], (b !! k) as [r|]; intros [= <-]; lia.
Qed.

Lemma Add_nonneg a b : nonneg a -> nonneg b -> nonneg (Add a b).
Proof.
  intros Ha Hb k v. rewrite lookup_Add.
  destruct (a !! k) as [u|] eqn:Eu, (b !! k) as [r|] eqn:Er; intros [= <-].
  - specialize (Ha _ _ Eu). specialize (Hb _ _ Er). lia.
  - eauto.
  - eauto.
Qed.

Lemma qty_nonneg rl k : nonneg rl -> 0 <= qty rl k.
Proof.
  intros H. unfold qty. destruct (rl !! k) eqn:E; simpl; [eauto | lia].
Qed.

(** The names returned by [LessThanOrEqual] are exactly the keys of [b]
    at which [a] holds a strictly greater quantity. *)
Lemma elem_of_exceeded a b k :
  k ∈ (LessThanOrEqual a b).2 <->
  exists limit other, b !! k = Some limit /\ a !! k = Some other /\ limit < other.
Proof.
  unfold LessThanOrEqual; simpl. rewrite list_elem_of_fmap. split.
  - intros [[k' limit] [-> Hin]]. apply list_elem_of_filter in Hin as [Hex Hin].
    apply elem_of_map_to_list in Hin. unfold exceeds in Hex; simpl in *.
    destruct (a !! k') as [other|] eqn:Ea; [|discriminate].
    apply bool_decide_eq_true in Hex. eauto.
  - intros (limit & other & Hb & Ha & Hlt). exists (k, limit). split; [done|].
    apply list_elem_of_filter. split; [|by apply elem_of_map_to_list].
    unfold exceeds; simpl. rewrite Ha. by apply bool_decide_eq_true.
Qed.

Lemma LessThanOrEqual_true a b :
  (LessThanOrEqual a b).1 = true <->
  forall k limit other, b !! k = Some limit -> a !! k = Some other -> other <= limit.
Proof.
  split.
  - intros Hle k limit other Hb Ha.
    destruct (decide (other <= limit)) as [|Hn]; [done|exfalso].
    assert (k ∈ (LessThanOrEqual a b).2) as Hin
      by (apply elem_of_exceeded; exists limit, other; repeat split; [done..|lia]).
    unfold LessThanOrEqual in *; simpl in *.
    apply bool_decide_eq_true in Hle. rewrite Hle in Hin. by apply elem_of_nil in Hin.
  - intros H. unfold LessThanOrEqual; simpl. apply bool_decide_eq_true.
    destruct ((filter _ (map_to_list b)).*1) as [|k l] eqn:E; [done|exfalso].
    assert (k ∈ (LessThanOrEqual a b).2) as Hin
      by (unfold LessThanOrEqual; simpl; rewrite E; left).
    apply elem_of_exceeded in Hin as (limit & other & Hb & Ha & Hlt).
    specialize (H _ _ _ Hb Ha). lia.
Qed.

Lemma LessThanOrEqual_false a b :
  (LessThanOrEqual a b).1 = false <->
  exists k limit other, b !! k = Some limit /\ a !! k = Some other /\ limit < other.
Proof.
  split.
  - intros Hf. unfold LessThanOrEqual in Hf; simpl in Hf.
    apply bool_decide_eq_false in Hf.
    destruct ((filter _ (map_to_list b)).*1) as [|k l] eqn:E; [done|].
    assert (k ∈ (LessThanOrEqual a b).2) as Hin
      by (unfold LessThanOrEqual; simpl; rewrite E; left).
    apply elem_of_exceeded in Hin. eauto.
  - intros (k & limit & other & Hb & Ha & Hlt).
    destruct ((LessThanOrEqual a b).1) eqn:E; [exfalso|done].
    pose proof (proj1 (LessThanOrEqual_true a b) E _ _ _ Hb Ha). lia.
Qed.

(** [nonneg] can be checked by running over the entries. *)
Lemma nonneg_check (rl : ResourceList) :
  bool_decide (map_Forall (fun _ v => 0 <= v) rl) = true -> nonneg rl.
Proof. intros H%bool_decide_eq_true. exact H. Qed.

(** Adding a request and subtracting it again with the floor at zero
    gives back a vector that had no negative entry. *)
Lemma qty_Subtract_Add a b k :
  nonneg a -> qty (SubtractWithNonNegativeResult (Add a b) b) k = qty a k.
Proof.
  intros Hnn. unfold qty. rewrite lookup_Subtract, lookup_Add.
  destruct (a !! k) as [u|] eqn:Hu; destruct (b !! k) as [r|]; simpl; try lia.
  - specialize (Hnn _ _ Hu). lia.
  - specialize (Hnn _ _ Hu). lia.
Qed.

(** Subtracting a request that fits and adding it back. *)
Lemma qty_Add_Subtract a b k :
  nonneg a -> nonneg b -> (forall k, qty b k <= qty a k) ->
  qty (Add (SubtractWithNonNegativeResult a b) b) k = qty a k.
Proof.
  intros Ha Hb Hfit. specialize (Hfit k). unfold qty in *.
  rewrite lookup_Add, lookup_Subtract.
  destruct (a !! k) as [u|] eqn:Hu; destruct (b !! k) as [r|] eqn:Hr; simpl in *.
  - lia.
  - specialize (Ha _ _ Hu). lia.
  - specialize (Hb _ _ Hr). lia.
  - lia.
Qed.

(** ** Runtime calculators *)

Lemma sameButRuntime_refl gqm : sameButRuntime gqm gqm.
Proof.
  split; [done|]. intros name.
  destruct (quotaInfoMap gqm !! name) as [qi|]; constructor. by destruct qi.
Qed.

(** The runtime calculator that finds nothing dirty: the cheap no-op
    refresh of §4.1. *)
Definition idleCalculator : RuntimeCalculator :=
  {| RefreshRuntime := fun gqm _ => gqm;
     RefreshRuntime_frame := fun gqm _ => sameButRuntime_refl gqm |}.

Lemma grantMax_frame gqm name : sameButRuntime gqm (grantMax gqm name).
Proof.
  split; [done|]. intros name'. unfold grantMax; simpl.
  rewrite lookup_alter. case_decide; subst.
  - destruct (quotaInfoMap gqm !! name') as [qi|]; constructor. done.
  - destruct (quotaInfoMap gqm !! name') as [qi|]; constructor. by destruct qi.
Qed.

(** The calculator that refreshes with [grantMax]. *)
Definition ceilingCalculator : RuntimeCalculator :=
  {| RefreshRuntime := grantMax; RefreshRuntime_frame := grantMax_frame |}.

(** ** Admission check *)

Lemma exceededAt_qty request limit k :
  exceededAt request limit k -> qty limit k < qty request k.
Proof.
  intros (bound & other & Hl & Hr & Hlt). unfold qty. by rewrite Hl, Hr.
Qed.

Section AdmissionFacts.

Context `{calc : RuntimeCalculator}.

(** What [PreFilter] returns once the tenant's snapshot is known. *)
Lemma PreFilter_found g cycleState pod quotaInfo :
  let quotaName := getPodAssociateQuotaName g pod in
  let gqm := RefreshRuntime (groupQuotaManager g) quotaName in
  let g' := setGroupQuotaManager gqm g in
  let state := (snapshotPostFilterState quotaInfo cycleState).1 in
  let podRequest := PodRequestsAndLimits pod in
  let check := LessThanOrEqual (Add podRequest (Used quotaInfo)) (Runtime quotaInfo) in
  GetQuotaInfoByName gqm quotaName = Some quotaInfo ->
  PreFilter g cycleState pod =
  if negb check.1 then
    Some (g', Some state,
          NewStatus Unschedulable
            (InsufficientQuotas quotaName (Runtime quotaInfo) (Used quotaInfo)
                                podRequest check.2))
  else if EnableCheckParentQuota (pluginArgs g) then
    st ← checkQuotaRecursive (S (size (quotaInfoMap gqm))) gqm quotaName [quotaName]
           podRequest;
    Some (g', Some state, st)
  else Some (g', Some state, NewStatus Success (Text EmptyString)).
Proof.
  intros quotaName gqm g' state podRequest check Hget.
  unfold PreFilter. fold quotaName. fold gqm. rewrite Hget.
  unfold snapshotPostFilterState, GetUsed, GetRuntime in *. cbn [used runtime fst snd] in *.
  fold podRequest. fold check. fold g'. by destruct check.
Qed.

Lemma PreFilter_not_found g cycleState pod :
  let quotaName := getPodAssociateQuotaName g pod in
  let gqm := RefreshRuntime (groupQuotaManager g) quotaName in
  GetQuotaInfoByName gqm quotaName = None ->
  PreFilter g cycleState pod =
  Some (setGroupQuotaManager gqm g, cycleState,
        NewStatus Error (Text "Could not find the specified ElasticQuota")).
Proof.
  intros quotaName gqm Hget. unfold PreFilter. fold quotaName. fold gqm.
  by rewrite Hget.
Qed.

(** Whatever the outcome, the plugin after [PreFilter] is the plugin
    before with its runtime refreshed. *)
Lemma PreFilter_plugin g cycleState pod g' cycleState' status :
  PreFilter g cycleState pod = Some (g', cycleState', status) ->
  g' = setGroupQuotaManager
         (RefreshRuntime (groupQuotaManager g) (getPodAssociateQuotaName g pod)) g.
Proof.
  destruct (GetQuotaInfoByName
              (RefreshRuntime (groupQuotaManager g) (getPodAssociateQuotaName g pod))
              (getPodAssociateQuotaName g pod)) as [qi|] eqn:Hget.
  - rewrite (PreFilter_found _ _ _ _ Hget).
    destruct (negb _); [by intros [= <- _ _]|].
    destruct (EnableCheckParentQuota _); [|by intros [= <- _ _]].
    destruct (checkQuotaRecursive _ _ _ _ _); simpl; [by intros [= <- _ _]|done].
  - rewrite (PreFilter_not_found _ _ _ Hget). by intros [= <- _ _].
Qed.

End AdmissionFacts.

(** C1 (as amended).  For every pod whose tenant snapshot is found,
    [PreFilter] takes used' to be the snapshot's [Used] plus the pod's
    request.  If used' exceeds [Runtime] in a dimension that [Runtime]
    lists, the pod is rejected as [Unschedulable] with a message naming
    exactly the exceeded dimensions.  With ancestor checking disabled the
    converse holds too: the pod is rejected if and only if such a
    dimension exists, and is accepted otherwise; in particular used' equal
    to [Runtime] is accepted.  A dimension that [Runtime] does not list is
    not limited. *)
Theorem PreFilter_rejects_iff_listed_dimension_exceeded
    `{calc : RuntimeCalculator} (g : Plugin) (cycleState : CycleState) (pod : Pod)
    (quotaInfo : QuotaInfo) :
  let quotaName := getPodAssociateQuotaName g pod in
  let gqm := RefreshRuntime (groupQuotaManager g) quotaName in
  let podRequest := PodRequestsAndLimits pod in
  let used' := Add podRequest (Used quotaInfo) in
  let snapshot := {| quotaInfo := quotaInfo; used := Used quotaInfo;
                     runtime := Runtime quotaInfo |} in
  GetQuotaInfoByName gqm quotaName = Some quotaInfo ->
  (forall k, qty used' k = qty (Used quotaInfo) k + qty podRequest k) /\
  ((exists k, exceededAt used' (Runtime quotaInfo) k) ->
   exists dims,
     (forall k, k ∈ dims <-> exceededAt used' (Runtime quotaInfo) k) /\
     PreFilter g cycleState pod =
     Some (setGroupQuotaManager gqm g, Some snapshot,
           NewStatus Unschedulable
             (InsufficientQuotas quotaName (Runtime quotaInfo) (Used quotaInfo)
                                 podRequest dims))) /\
  (EnableCheckParentQuota (pluginArgs g) = false ->
   (~ (exists k, exceededAt used' (Runtime quotaInfo) k) ->
    PreFilter g cycleState pod =
    Some (setGroupQuotaManager gqm g, Some snapshot, NewStatus Success (Text EmptyString))) /\
   (forall g' cycleState' status,
      PreFilter g cycleState pod = Some (g', cycleState', status) ->
      (code status = Unschedulable <-> exists k, exceededAt used' (Runtime quotaInfo) k))) /\
  (EnableCheckParentQuota (pluginArgs g) = false ->
   (forall k, qty used' k <= qty (Runtime quotaInfo) k) ->
   PreFilter g cycleState pod =
   Some (setGroupQuotaManager gqm g, Some snapshot, NewStatus Success (Text EmptyString))).
Proof.
  intros quotaName gqm podRequest used' snapshot Hget.
  pose proof (PreFilter_found g cycleState pod quotaInfo Hget) as Heq.
  cbn zeta in Heq. fold quotaName gqm podRequest used' in Heq.
  change (snapshotPostFilterState quotaInfo cycleState).1 with snapshot in Heq.
  assert (Hrej : (exists k, exceededAt used' (Runtime quotaInfo) k) ->
                 (LessThanOrEqual used' (Runtime quotaInfo)).1 = false).
  { intros [k Hk]. apply LessThanOrEqual_false. by exists k. }
  assert (Hacc : ~ (exists k, exceededAt used' (Runtime quotaInfo) k) ->
                 (LessThanOrEqual used' (Runtime quotaInfo)).1 = true).
  { intros Hno. destruct (LessThanOrEqual used' (Runtime quotaInfo)).1 eqn:E; [done|].
    apply LessThanOrEqual_false in E as [k Hk]. destruct Hno. by exists k. }
  assert (Hoff : EnableCheckParentQuota (pluginArgs g) = false ->
                 ~ (exists k, exceededAt used' (Runtime quotaInfo) k) ->
                 PreFilter g cycleState pod =
                 Some (setGroupQuotaManager gqm g, Some snapshot,
                       NewStatus Success (Text EmptyString))).
  { intros Hflag Hno. rewrite Heq, (Hacc Hno), Hflag. reflexivity. }
  split; [|split; [|split]].
  - intros k. unfold used'. rewrite qty_Add. lia.
  - intros Hex. exists (LessThanOrEqual used' (Runtime quotaInfo)).2. split.
    + intros k. apply elem_of_exceeded.
    + rewrite Heq, (Hrej Hex). reflexivity.
  - intros Hflag. split; [by apply Hoff|].
    intros g' cycleState' status Hrun. split.
    + intros Hcode. rewrite Heq, Hflag in Hrun.
      destruct (LessThanOrEqual used' (Runtime quotaInfo)).1 eqn:E.
      * simpl in Hrun. injection Hrun as <- <- <-. discriminate.
      * by apply LessThanOrEqual_false in E.
    + intros Hex. rewrite Heq, (Hrej Hex) in Hrun. simpl in Hrun.
      by injection Hrun as <- <- <-.
  - intros Hflag Hle. apply Hoff; [done|]. intros [k Hk].
    apply exceededAt_qty in Hk. specialize (Hle k). lia.
Qed.

(** Scenario C, rejected half: 45 used of 50, a request of 10 names cpu. *)
Lemma PreFilter_rejects_iff_listed_dimension_exceeded_witness :
  exists dims,
    (forall k, k ∈ dims <->
               exceededAt (Add (PodRequestsAndLimits (cpuPod 10)) (Used teamA))
                          (Runtime teamA) k) /\
    PreFilter (calc := idleCalculator) (scenarioPlugin false false) None (cpuPod 10) =
    Some (scenarioPlugin false false,
          Some {| quotaInfo := teamA; used := Used teamA; runtime := Runtime teamA |},
          NewStatus Unschedulable
            (InsufficientQuotas "team-a" (Runtime teamA) (Used teamA)
                                (PodRequestsAndLimits (cpuPod 10)) dims)).
Proof.
  apply (PreFilter_rejects_iff_listed_dimension_exceeded
           (calc := idleCalculator) (scenarioPlugin false false) None (cpuPod 10) teamA).
  - reflexivity.
  - exists "cpu"%string, 50, 55. repeat split; reflexivity.
Defined.

(** Scenario C run: a request of 5 reaches the runtime exactly and is
    admitted, a request of 10 is rejected and the reason names cpu. *)
Example PreFilter_scenario_C_run :
  PreFilter (calc := idleCalculator) (scenarioPlugin false false) None (cpuPod 5) =
  Some (scenarioPlugin false false,
        Some {| quotaInfo := teamA; used := Used teamA; runtime := Runtime teamA |},
        NewStatus Success (Text EmptyString)) /\
  PreFilter (calc := idleCalculator) (scenarioPlugin false false) None (cpuPod 10) =
  Some (scenarioPlugin false false,
        Some {| quotaInfo := teamA; used := Used teamA; runtime := Runtime teamA |},
        NewStatus Unschedulable
          (InsufficientQuotas "team-a" (Runtime teamA) (Used teamA)
                              (PodRequestsAndLimits (cpuPod 10)) ["cpu"%string])).
Proof. split; vm_compute; reflexivity. Qed.

(** C1 as stated fails when the request has a dimension that [Runtime]
    does not list: read as vectors, used' exceeds [Runtime] in gpu (1 over
    0), yet the pod is admitted. *)
Lemma PreFilter_unlisted_dimension_admitted :
  qty (Runtime teamA) "gpu" < qty (Add (PodRequestsAndLimits gpuPod) (Used teamA)) "gpu" /\
  GetQuotaInfoByName (scenarioTree false) (getPodAssociateQuotaName (scenarioPlugin false false) gpuPod)
  = Some teamA /\
  PreFilter (calc := idleCalculator) (scenarioPlugin false false) None gpuPod =
  Some (scenarioPlugin false false,
        Some {| quotaInfo := teamA; used := Used teamA; runtime := Runtime teamA |},
        NewStatus Success (Text EmptyString)).
Proof. repeat split; vm_compute; reflexivity. Qed.

(** ** The shared tree under admission, commit and rollback *)

Lemma sameButRuntime_Used gqm gqm' name :
  sameButRuntime gqm gqm' ->
  Used <$> quotaInfoMap gqm' !! name = Used <$> quotaInfoMap gqm !! name.
Proof.
  intros [_ H]. specialize (H name).
  destruct H as [qi qi' ->|]; reflexivity.
Qed.


Lemma usedOf_Used g g' name :
  Used <$> quotaInfoMap (groupQuotaManager g') !! name
  = Used <$> quotaInfoMap (groupQuotaManager g) !! name ->
  forall k, usedOf g' name k = usedOf g name k.
Proof.
  intros H k. unfold usedOf.
  destruct (quotaInfoMap (groupQuotaManager g') !! name),
           (quotaInfoMap (groupQuotaManager g) !! name); simpl in H; congruence.
Qed.

Lemma usedOf_Reserve g cycleState p nodeName qi k :
  quotaInfoMap (groupQuotaManager g) !! getPodAssociateQuotaName g p = Some qi ->
  PodCache qi !! pod_key p = None ->
  usedOf (Reserve g cycleState p nodeName).1 (getPodAssociateQuotaName g p) k
  = usedOf g (getPodAssociateQuotaName g p) k + qty (PodRequestsAndLimits p) k.
Proof.
  intros Hqi Hnew. unfold usedOf, Reserve, ReservePod. simpl.
  rewrite Hqi. simpl. rewrite lookup_insert_eq.
  unfold reserveInto. rewrite Hnew. simpl. apply qty_Add.
Qed.

(** C2 (as amended).  [PreFilter] never mutates the shared [Used]:
    whatever it returns, every tenant's [Used] in the shared state is
    what it was.  The shared state itself need not be: the plugin
    afterwards is the plugin before with its runtime refreshed, so the
    two differ at most in the [Runtime] of the quota groups (and not at
    all when the refresh finds nothing to recompute).  [Reserve] is the
    step that adds the pod's request to the tenant's [Used]. *)
Theorem PreFilter_never_mutates_Used
    `{calc : RuntimeCalculator} (g : Plugin) (cycleState : CycleState) (pod : Pod)
    (g' : Plugin) (cycleState' : CycleState) (status : Status) :
  PreFilter g cycleState pod = Some (g', cycleState', status) ->
  (forall quotaName,
     Used <$> quotaInfoMap (groupQuotaManager g') !! quotaName
     = Used <$> quotaInfoMap (groupQuotaManager g) !! quotaName) /\
  (forall quotaName k, usedOf g' quotaName k = usedOf g quotaName k) /\
  (pluginArgs g' = pluginArgs g /\
   groupQuotaManager g'
   = RefreshRuntime (groupQuotaManager g) (getPodAssociateQuotaName g pod) /\
   sameButRuntime (groupQuotaManager g) (groupQuotaManager g')) /\
  (RefreshRuntime (groupQuotaManager g) (getPodAssociateQuotaName g pod)
   = groupQuotaManager g -> g' = g) /\
  (forall p nodeName qi k,
     quotaInfoMap (groupQuotaManager g) !! getPodAssociateQuotaName g p = Some qi ->
     PodCache qi !! pod_key p = None ->
     usedOf (Reserve g cycleState p nodeName).1 (getPodAssociateQuotaName g p) k
     = usedOf g (getPodAssociateQuotaName g p) k + qty (PodRequestsAndLimits p) k).
Proof.
  intros Hrun. apply PreFilter_plugin in Hrun. subst g'.
  assert (Hused : forall quotaName,
             Used <$> quotaInfoMap
                        (RefreshRuntime (groupQuotaManager g)
                           (getPodAssociateQuotaName g pod)) !! quotaName
             = Used <$> quotaInfoMap (groupQuotaManager g) !! quotaName).
  { intros quotaName. apply sameButRuntime_Used, RefreshRuntime_frame. }
  split; [exact Hused|]. split; [|split; [|split]].
  - intros quotaName. apply usedOf_Used. apply Hused.
  - cbn [setGroupQuotaManager pluginArgs groupQuotaManager].
    split; [reflexivity|]. split; [reflexivity|]. apply RefreshRuntime_frame.
  - intros ->. by destruct g.
  - intros p nodeName qi k. apply usedOf_Reserve.
Qed.

(** An admitted pod under a calculator that does rewrite [Runtime]: the
    tenants' [Used] stay as they were. *)
Lemma PreFilter_never_mutates_Used_witness :
  PreFilter (calc := ceilingCalculator) (scenarioPlugin false false) None (cpuPod 10)
  = Some (setGroupQuotaManager (grantMax (scenarioTree false) "team-a")
                               (scenarioPlugin false false),
          Some {| quotaInfo := setRuntime (Max teamA) teamA; used := Used teamA;
                  runtime := Max teamA |},
          NewStatus Success (Text EmptyString)) /\
  usedOf (setGroupQuotaManager (grantMax (scenarioTree false) "team-a")
                               (scenarioPlugin false false)) "team-a" "cpu"
  = usedOf (scenarioPlugin false false) "team-a" "cpu".
Proof.
  assert (Hrun :
            PreFilter (calc := ceilingCalculator) (scenarioPlugin false false) None (cpuPod 10)
            = Some (setGroupQuotaManager (grantMax (scenarioTree false) "team-a")
                                         (scenarioPlugin false false),
                    Some {| quotaInfo := setRuntime (Max teamA) teamA; used := Used teamA;
                            runtime := Max teamA |},
                    NewStatus Success (Text EmptyString)))
    by (vm_compute; reflexivity).
  split; [exact Hrun|].
  exact (proj1 (proj2 (PreFilter_never_mutates_Used _ _ _ _ _ _ Hrun)) "team-a"%string
               "cpu"%string).
Defined.

(** C2 as stated fails for the shared state as a whole: a refresh that
    finds the tenant's runtime stale recomputes it (50 before, 100 after),
    so the shared state after [PreFilter] is not the state before, though
    the tenant's [Used] is. *)
Lemma PreFilter_refreshes_shared_Runtime :
  PreFilter (calc := ceilingCalculator) (scenarioPlugin false false) None (cpuPod 10)
  = Some (setGroupQuotaManager (grantMax (scenarioTree false) "team-a")
                               (scenarioPlugin false false),
          Some {| quotaInfo := setRuntime (Max teamA) teamA; used := Used teamA;
                  runtime := Max teamA |},
          NewStatus Success (Text EmptyString)) /\
  setGroupQuotaManager (grantMax (scenarioTree false) "team-a") (scenarioPlugin false false)
  <> scenarioPlugin false false /\
  Runtime <$> quotaInfoMap (scenarioTree false) !! "team-a"
  = Some (resources [("cpu"%string, 50)]) /\
  Runtime <$> quotaInfoMap (grantMax (scenarioTree false) "team-a") !! "team-a"
  = Some (resources [("cpu"%string, 100)]).
Proof.
  split; [vm_compute; reflexivity|]. split; [|split; vm_compute; reflexivity].
  intros Heq.
  apply (f_equal (fun g => Runtime <$> quotaInfoMap (groupQuotaManager g) !! "team-a"))
    in Heq.
  vm_compute in Heq. discriminate Heq.
Qed.

Lemma lookup_ReservePod gqm quotaName p name :
  quotaInfoMap (ReservePod gqm quotaName p) !! name =
  if decide (name = quotaName)
  then (fun qi => reserveInto qi p) <$> quotaInfoMap gqm !! name
  else quotaInfoMap gqm !! name.
Proof.
  unfold ReservePod. case_decide as Hname.
  - subst name. destruct (quotaInfoMap gqm !! quotaName) as [qi|] eqn:Hqi; simpl.
    + by rewrite lookup_insert_eq.
    + by rewrite Hqi.
  - destruct (quotaInfoMap gqm !! quotaName); simpl; [|done].
    by rewrite lookup_insert_ne.
Qed.

Lemma lookup_UnreservePod gqm quotaName p name :
  quotaInfoMap (UnreservePod gqm quotaName p) !! name =
  if decide (name = quotaName)
  then (fun qi => unreserveFrom qi p) <$> quotaInfoMap gqm !! name
  else quotaInfoMap gqm !! name.
Proof.
  unfold UnreservePod. case_decide as Hname.
  - subst name. destruct (quotaInfoMap gqm !! quotaName) as [qi|] eqn:Hqi; simpl.
    + by rewrite lookup_insert_eq.
    + by rewrite Hqi.
  - destruct (quotaInfoMap gqm !! quotaName); simpl; [|done].
    by rewrite lookup_insert_ne.
Qed.

Lemma Used_unreserve_reserve qi p k :
  PodCache qi !! pod_key p = None -> nonneg (Used qi) ->
  qty (Used (unreserveFrom (reserveInto qi p) p)) k = qty (Used qi) k.
Proof.
  intros Hnew Hnn. unfold reserveInto. rewrite Hnew. unfold unreserveFrom.
  cbn [PodCache Used]. rewrite lookup_insert_eq. cbn [Used].
  by apply qty_Subtract_Add.
Qed.

(** C3 (as amended).  For a workload its tenant does not track yet, and a
    tenant whose [Used] has no negative entry, [Reserve] followed by
    [Unreserve] of the same workload restores [Used] in every dimension,
    for that tenant and for every other one. *)
Theorem Reserve_Unreserve_restores_Used
    (g : Plugin) (cycleState : CycleState) (p : Pod) (nodeName : string) :
  (forall qi,
     quotaInfoMap (groupQuotaManager g) !! getPodAssociateQuotaName g p = Some qi ->
     PodCache qi !! pod_key p = None /\ nonneg (Used qi)) ->
  forall quotaName k,
    usedOf (Unreserve (Reserve g cycleState p nodeName).1 cycleState p nodeName) quotaName k
    = usedOf g quotaName k.
Proof.
  intros Hpre quotaName k. unfold usedOf, Unreserve, Reserve in *.
  unfold getPodAssociateQuotaName in *.
  cbn [fst groupQuotaManager setGroupQuotaManager].
  set (tenant := default DefaultQuotaName (pod_quotaName p)) in *.
  rewrite lookup_UnreservePod, lookup_ReservePod.
  case_decide as Hname; [|reflexivity]. subst quotaName.
  destruct (quotaInfoMap (groupQuotaManager g) !! tenant) as [qi|] eqn:Hqi; [|reflexivity].
  destruct (Hpre qi eq_refl) as [Hnew Hnn]. simpl.
  by apply Used_unreserve_reserve.
Qed.

Lemma Reserve_Unreserve_restores_Used_witness :
  usedOf (Reserve (scenarioPlugin false false) None (cpuPod 5) "node-1").1 "team-a" "cpu" = 50 /\
  usedOf (Unreserve (Reserve (scenarioPlugin false false) None (cpuPod 5) "node-1").1
                    None (cpuPod 5) "node-1") "team-a" "cpu"
  = usedOf (scenarioPlugin false false) "team-a" "cpu".
Proof.
  split; [vm_compute; reflexivity|].
  apply (Reserve_Unreserve_restores_Used (scenarioPlugin false false) None (cpuPod 5) "node-1").
  intros qi [= <-]. split; [reflexivity|].
  apply nonneg_check. vm_compute. reflexivity.
Defined.

(** C3 as stated fails for a workload the tenant already tracks: the
    repeated [Reserve] adds nothing, [Unreserve] subtracts the request. *)
Lemma Reserve_Unreserve_tracked_pod_changes_Used :
  let g := scenarioPlugin false false in
  usedOf g "team-a" "cpu" = 45 /\
  usedOf (Reserve g None runningPod "node-1").1 "team-a" "cpu" = 45 /\
  usedOf (Unreserve (Reserve g None runningPod "node-1").1 None runningPod "node-1")
         "team-a" "cpu" = 0.
Proof. repeat split; vm_compute; reflexivity. Qed.

(** ** Simulated accounting *)

Lemma accounted_Some state pod :
  accounted state pod = true -> exists s, state = Some s.
Proof.
  unfold accounted. destruct state as [s|]; [eauto|]. by rewrite andb_false_r.
Qed.

Lemma AddPod_accounted g s podToSchedule podInfo nodeInfo :
  accounted (Some s) (Pod_of podInfo) = true ->
  AddPod g (Some s) podToSchedule podInfo nodeInfo =
  (g, Some (setUsed (Add (used s) (PodRequestsAndLimits (Pod_of podInfo))) s), success).
Proof.
  unfold accounted, AddPod. intros [Hr Hex]%andb_true_iff.
  apply negb_true_iff in Hr. rewrite Hr. simpl. by rewrite Hex.
Qed.

Lemma RemovePod_accounted g s podToSchedule podInfo nodeInfo :
  accounted (Some s) (Pod_of podInfo) = true ->
  RemovePod g (Some s) podToSchedule podInfo nodeInfo =
  (g, Some (setUsed (SubtractWithNonNegativeResult
                       (used s) (PodRequestsAndLimits (Pod_of podInfo))) s), success).
Proof.
  unfold accounted, RemovePod. intros [Hr Hex]%andb_true_iff.
  apply negb_true_iff in Hr. rewrite Hr. simpl. by rewrite Hex.
Qed.

Lemma AddPod_not_accounted g state podToSchedule podInfo nodeInfo :
  accounted state (Pod_of podInfo) = false ->
  (AddPod g state podToSchedule podInfo nodeInfo).1 = (g, state).
Proof.
  unfold accounted, AddPod. intros H.
  destruct (IsReservePod (Pod_of podInfo)); [done|].
  destruct state as [s|]; simpl in *; [|done]. by rewrite H.
Qed.

Lemma RemovePod_not_accounted g state podToSchedule podInfo nodeInfo :
  accounted state (Pod_of podInfo) = false ->
  (RemovePod g state podToSchedule podInfo nodeInfo).1 = (g, state).
Proof.
  unfold accounted, RemovePod. intros H.
  destruct (IsReservePod (Pod_of podInfo)); [done|].
  destruct state as [s|]; simpl in *; [|done]. by rewrite H.
Qed.

Lemma AddPod_plugin g state podToSchedule podInfo nodeInfo :
  (AddPod g state podToSchedule podInfo nodeInfo).1.1 = g.
Proof.
  destruct (accounted state (Pod_of podInfo)) eqn:E.
  - destruct (accounted_Some _ _ E) as [s ->].
    by rewrite AddPod_accounted.
  - by rewrite AddPod_not_accounted.
Qed.

Lemma RemovePod_plugin g state podToSchedule podInfo nodeInfo :
  (RemovePod g state podToSchedule podInfo nodeInfo).1.1 = g.
Proof.
  destruct (accounted state (Pod_of podInfo)) eqn:E.
  - destruct (accounted_Some _ _ E) as [s ->].
    by rewrite RemovePod_accounted.
  - by rewrite RemovePod_not_accounted.
Qed.

(** C4 (as amended).  [AddPod] and [RemovePod] leave the plugin, and with
    it the shared tree, as it was.  On a per-attempt state without
    negative entries, [AddPod] followed by [RemovePod] of the same pod
    restores the per-attempt used vector in every dimension; [RemovePod]
    followed by [AddPod] restores it when the pod's request has no
    negative entry and fits in the used vector in every dimension. *)
Theorem AddPod_RemovePod_reversible
    (g : Plugin) (state : CycleState) (podToSchedule : Pod) (podInfo : PodInfo)
    (nodeInfo : NodeInfo) :
  cycleNonneg state ->
  let added := AddPod g state podToSchedule podInfo nodeInfo in
  let removed := RemovePod g state podToSchedule podInfo nodeInfo in
  added.1.1 = g /\ removed.1.1 = g /\
  (forall k,
     cycleUsed (RemovePod added.1.1 added.1.2 podToSchedule podInfo nodeInfo).1.2 k
     = cycleUsed state k) /\
  (nonneg (PodRequestsAndLimits (Pod_of podInfo)) ->
   (forall k, qty (PodRequestsAndLimits (Pod_of podInfo)) k <= cycleUsed state k) ->
   forall k,
     cycleUsed (AddPod removed.1.1 removed.1.2 podToSchedule podInfo nodeInfo).1.2 k
     = cycleUsed state k).
Proof.
  intros Hnn added removed. subst added removed.
  split; [apply AddPod_plugin|]. split; [apply RemovePod_plugin|].
  destruct (accounted state (Pod_of podInfo)) eqn:E.
  - destruct (accounted_Some _ _ E) as [s ->].
    assert (E' : forall u, accounted (Some (setUsed u s)) (Pod_of podInfo) = true) by done.
    rewrite (AddPod_accounted g s), (RemovePod_accounted g s) by done. cbn [fst snd].
    rewrite AddPod_accounted, RemovePod_accounted by apply E'. cbn [fst snd].
    split.
    + intros k. simpl. apply qty_Subtract_Add. by apply Hnn.
    + intros Hreq Hfit k. simpl. apply qty_Add_Subtract; [by apply Hnn|exact Hreq|exact Hfit].
  - repeat (first [rewrite (AddPod_not_accounted g state) by done
                  |rewrite (RemovePod_not_accounted g state) by done];
            cbn [fst snd]).
    split; intros; reflexivity.
Qed.

Lemma AddPod_RemovePod_reversible_witness :
  cycleUsed (AddPod (scenarioPlugin false false) scenarioState (cpuPod 5)
                    (onNode runningPod) node1).1.2 "cpu" = 90 /\
  cycleUsed (RemovePod (scenarioPlugin false false)
               (AddPod (scenarioPlugin false false) scenarioState (cpuPod 5)
                       (onNode runningPod) node1).1.2
               (cpuPod 5) (onNode runningPod) node1).1.2 "cpu"
  = cycleUsed scenarioState "cpu".
Proof.
  split; [vm_compute; reflexivity|].
  refine (proj1 (proj2 (proj2
            (AddPod_RemovePod_reversible
               (scenarioPlugin false false) scenarioState (cpuPod 5) (onNode runningPod)
               node1 _))) "cpu"%string).
  intros s [= <-]. apply nonneg_check. vm_compute. reflexivity.
Defined.

(** C4 as stated fails for [RemovePod] followed by [AddPod] once the floor
    at zero has cut the subtraction: after the tracked pod has been
    removed once (used is 0), removing and adding it again leaves 45. *)
Lemma RemovePod_AddPod_not_restored :
  let g := scenarioPlugin false false in
  let state := (RemovePod g scenarioState (cpuPod 5) (onNode runningPod) node1).1.2 in
  let removed := (RemovePod g state (cpuPod 5) (onNode runningPod) node1).1.2 in
  let readded := (AddPod g removed (cpuPod 5) (onNode runningPod) node1).1.2 in
  cycleUsed state "cpu" = 0 /\ cycleUsed readded "cpu" = 45.
Proof. split; vm_compute; reflexivity. Qed.

Lemma simStep_nonneg podToSchedule st op :
  cycleNonneg st.2 -> addsNonneg op -> cycleNonneg (simStep podToSchedule st op).2.
Proof.
  destruct st as [g state]. intros Hnn Hop. destruct op as [podInfo ni|podInfo ni]; simpl.
  - destruct (accounted state (Pod_of podInfo)) eqn:E.
    + destruct (accounted_Some _ _ E) as [s ->]. rewrite AddPod_accounted by done.
      intros s' [= <-]. simpl. apply Add_nonneg; [by apply Hnn|exact Hop].
    + by rewrite AddPod_not_accounted.
  - destruct (accounted state (Pod_of podInfo)) eqn:E.
    + destruct (accounted_Some _ _ E) as [s ->]. rewrite RemovePod_accounted by done.
      intros s' [= <-]. simpl. apply Subtract_nonneg.
    + by rewrite RemovePod_not_accounted.
Qed.

(** C9.  The per-attempt used vector never goes negative: starting from a
    state without negative entries (the snapshot of a tenant's [Used]),
    after any sequence of [AddPod] and [RemovePod] calls, with added pods
    that request no negative quantity, every entry of the used vector is
    at least zero; and a [RemovePod] that takes effect leaves no negative
    entry whatever the vector was before, removal being floored at zero. *)
Theorem simulated_used_never_negative
    (podToSchedule : Pod) (g : Plugin) (state : CycleState) (ops : list SimOp) :
  cycleNonneg state ->
  Forall addsNonneg ops ->
  (forall k, 0 <= cycleUsed (simulate podToSchedule (g, state) ops).2 k) /\
  cycleNonneg (simulate podToSchedule (g, state) ops).2 /\
  (forall s podInfo nodeInfo,
     accounted (Some s) (Pod_of podInfo) = true ->
     cycleNonneg (RemovePod g (Some s) podToSchedule podInfo nodeInfo).1.2).
Proof.
  intros Hnn Hops.
  assert (Hinv : cycleNonneg (simulate podToSchedule (g, state) ops).2).
  { unfold simulate. revert g state Hnn.
    induction Hops as [|op ops Hop _ IH]; intros g state Hnn; [exact Hnn|].
    simpl. destruct (simStep podToSchedule (g, state) op) as [g1 state1] eqn:E.
    apply IH. change state1 with (g1, state1).2. rewrite <- E.
    by apply simStep_nonneg. }
  split; [|split; [exact Hinv|]].
  - intros k. unfold cycleUsed.
    destruct (simulate podToSchedule (g, state) ops).2 as [s|] eqn:E; [|lia].
    apply qty_nonneg. by apply Hinv.
  - intros s podInfo nodeInfo Hacc. rewrite RemovePod_accounted by done.
    intros s' [= <-]. simpl. apply Subtract_nonneg.
Qed.

Lemma simulated_used_never_negative_witness :
  0 <= cycleUsed
         (simulate (cpuPod 5) (scenarioPlugin false false, scenarioState)
            [SimulatedRemove (onNode runningPod) node1;
             SimulatedRemove (onNode runningPod) node1;
             SimulatedAdd (onNode runningPod) node1]).2 "cpu".
Proof.
  refine (proj1 (simulated_used_never_negative
                   (cpuPod 5) (scenarioPlugin false false) scenarioState _ _ _)
                "cpu"%string).
  - intros s [= <-]. apply nonneg_check. vm_compute. reflexivity.
  - repeat constructor. apply nonneg_check. vm_compute. reflexivity.
Defined.

(** C10.  [AddPod] and [RemovePod] return success and leave the cycle
    state and the plugin as they were when the candidate is a reservation
    pod (the nil status) or, with a per-attempt state present, is not
    tracked by its quota; a call that changes the cycle state is one for a
    pod that is no reservation pod and that the quota tracks, and it adds
    the request to, or subtracts it with the floor at zero from, the used
    vector. *)
Theorem AddPod_RemovePod_noop_unless_tracked
    (g : Plugin) (state : CycleState) (podToSchedule : Pod) (podInfo : PodInfo)
    (nodeInfo : NodeInfo) :
  let pod := Pod_of podInfo in
  (IsReservePod pod = true ->
   AddPod g state podToSchedule podInfo nodeInfo = (g, state, None) /\
   RemovePod g state podToSchedule podInfo nodeInfo = (g, state, None) /\
   IsSuccess None = true) /\
  (forall s, state = Some s -> IsReservePod pod = false ->
             IsPodExist (quotaInfo s) pod = false ->
             AddPod g state podToSchedule podInfo nodeInfo = (g, state, success) /\
             RemovePod g state podToSchedule podInfo nodeInfo = (g, state, success) /\
             IsSuccess success = true) /\
  ((AddPod g state podToSchedule podInfo nodeInfo).1.2 <> state \/
   (RemovePod g state podToSchedule podInfo nodeInfo).1.2 <> state ->
   IsReservePod pod = false /\
   exists s, state = Some s /\ IsPodExist (quotaInfo s) pod = true) /\
  (forall s, state = Some s -> IsReservePod pod = false ->
             IsPodExist (quotaInfo s) pod = true ->
             AddPod g state podToSchedule podInfo nodeInfo =
             (g, Some (setUsed (Add (used s) (PodRequestsAndLimits pod)) s), success) /\
             RemovePod g state podToSchedule podInfo nodeInfo =
             (g, Some (setUsed (SubtractWithNonNegativeResult
                                  (used s) (PodRequestsAndLimits pod)) s), success)).
Proof.
  intros pod. subst pod. split; [|split; [|split]].
  - intros Hr. unfold AddPod, RemovePod. rewrite Hr. done.
  - intros s -> Hr Hex. unfold AddPod, RemovePod. rewrite Hr. simpl. rewrite Hex. done.
  - intros Hchanged.
    destruct (accounted state (Pod_of podInfo)) eqn:E.
    + destruct (accounted_Some _ _ E) as [s ->]. unfold accounted in E.
      apply andb_true_iff in E as [Hr Hex]. apply negb_true_iff in Hr. eauto.
    + rewrite AddPod_not_accounted, RemovePod_not_accounted in Hchanged by done.
      simpl in Hchanged. by destruct Hchanged.
  - intros s -> Hr Hex.
    assert (accounted (Some s) (Pod_of podInfo) = true) as Hacc
      by (unfold accounted; rewrite Hr, Hex; done).
    by rewrite AddPod_accounted, RemovePod_accounted.
Qed.

Lemma AddPod_RemovePod_noop_unless_tracked_witness :
  AddPod (scenarioPlugin false false) scenarioState (cpuPod 5) (onNode reservePod) node1
  = (scenarioPlugin false false, scenarioState, None) /\
  RemovePod (scenarioPlugin false false) scenarioState (cpuPod 5) (onNode reservePod) node1
  = (scenarioPlugin false false, scenarioState, None) /\
  IsSuccess None = true.
Proof.
  refine (proj1 (AddPod_RemovePod_noop_unless_tracked
                   (scenarioPlugin false false) scenarioState (cpuPod 5)
                   (onNode reservePod) node1) _).
  reflexivity.
Defined.

(** ** Ancestor checking *)







Lemma checkQuotaRecursive_step fuel gqm name topo podRequest :
  checkQuotaRecursive (S fuel) gqm name topo podRequest =
  match GetQuotaInfoByName gqm name with
  | None => Some (NewStatus Error (Text "Could not find the specified ElasticQuota"))
  | Some qi =>
      if negb (fits podRequest qi) then
        Some (NewStatus Unschedulable
                (InsufficientQuotas name (Runtime qi) (Used qi) podRequest
                   (LessThanOrEqual (Add podRequest (Used qi)) (Runtime qi)).2))
      else
        match ParentName qi with
        | Some parent => checkQuotaRecursive fuel gqm parent (topo ++ [parent]) podRequest
        | None => Some (NewStatus Success (Text EmptyString))
        end
  end.
Proof.
  cbn [checkQuotaRecursive]. destruct (GetQuotaInfoByName gqm name) as [qi|]; [|done].
  unfold fits, GetUsed, GetRuntime.
  by destruct (LessThanOrEqual (Add podRequest (Used qi)) (Runtime qi)).
Qed.

(** From here on the walk is unfolded by the equation above only. *)
Arguments checkQuotaRecursive : simpl never.




Example PreFilter_ancestor_rejects :
  (fun r => code r.2) <$>
    PreFilter (calc := idleCalculator) (scenarioPlugin true false) None (cpuPod 5)
  = Some Unschedulable /\
  (fun r => code r.2) <$>
    PreFilter (calc := idleCalculator) (scenarioPlugin false false) None (cpuPod 5)
  = Some Success.
Proof. split; vm_compute; reflexivity. Qed.

(** ** A walk out of fuel never returns *)

Lemma checkQuotaRecursive_None fuel gqm name topo podRequest :
  checkQuotaRecursive fuel gqm name topo podRequest = None
  <-> is_Some (walkIter gqm podRequest fuel name).
Proof.
  revert name topo. induction fuel as [|fuel IH]; intros name topo.
  - split; [by eexists|done].
  - rewrite checkQuotaRecursive_step. cbn [walkIter]. unfold walkNext.
    destruct (GetQuotaInfoByName gqm name) as [qi|]; simpl;
      [|split; [done|by intros [? ?]]].
    destruct (fits podRequest qi); simpl; [|split; [done|by intros [? ?]]].
    destruct (ParentName qi) as [parent|]; simpl; [apply IH|].
    split; [done|by intros [? ?]].
Qed.

Lemma walkIter_add gqm podRequest n d name :
  walkIter gqm podRequest (n + d) name
  = walkIter gqm podRequest n name ≫= walkIter gqm podRequest d.
Proof.
  revert name. induction n as [|n IH]; intros name; [done|].
  cbn [Nat.add walkIter]. destruct (walkNext gqm podRequest name); simpl; [apply IH|done].
Qed.

Lemma walkIter_prefix gqm podRequest n n' name :
  (n <= n')%nat -> is_Some (walkIter gqm podRequest n' name) ->
  is_Some (walkIter gqm podRequest n name).
Proof.
  intros Hle. replace n' with (n + (n' - n))%nat by lia. rewrite walkIter_add.
  destruct (walkIter gqm podRequest n name); [by eexists|by intros [? ?]].
Qed.

(** Two names that resolve to the same stored group send the walk on to
    the same parent. *)
Lemma walkNext_resolvedName gqm podRequest name :
  is_Some (walkNext gqm podRequest name) ->
  is_Some (quotaInfoMap gqm !! resolvedName gqm name) /\
  walkNext gqm podRequest (resolvedName gqm name) = walkNext gqm podRequest name.
Proof.
  unfold walkNext, resolvedName, GetQuotaInfoByName.
  destruct (quotaInfoMap gqm !! name) as [qi|] eqn:Hname.
  - rewrite decide_True by eauto. rewrite Hname. eauto.
  - rewrite decide_False by (by intros [? ?]).
    destruct (strictMode gqm); simpl; [by intros [? ?]|].
    destruct (quotaInfoMap gqm !! DefaultQuotaName) as [qi|]; simpl; [eauto|by intros [? ?]].
Qed.

Lemma not_NoDup_lookup (l : list string) :
  ~ NoDup l -> exists i j x, (i < j)%nat /\ l !! i = Some x /\ l !! j = Some x.
Proof.
  induction l as [|x l IH]; intros Hdup.
  - destruct Hdup. constructor.
  - destruct (decide (x ∈ l)) as [Hin|Hnotin].
    + apply list_elem_of_lookup in Hin as [j Hj].
      exists 0%nat, (S j), x. split; [lia|done].
    + destruct IH as (i & j & y & Hlt & Hi & Hj).
      { intros Hl. apply Hdup. by constructor. }
      exists (S i), (S j), y. split; [lia|done].
Qed.

(** More names than there are groups: one group is named twice. *)
Lemma long_list_lookup (l : list string) (X : gset string) :
  (forall x, x ∈ l -> x ∈ X) -> (size X < length l)%nat ->
  exists i j x, (i < j)%nat /\ l !! i = Some x /\ l !! j = Some x.
Proof.
  intros Hsub Hlen. apply not_NoDup_lookup. intros Hnodup.
  assert (length l <= size X)%nat; [|lia].
  apply (submseteq_length l (elements X)), NoDup_submseteq; [done|].
  intros x Hx. apply elem_of_elements. by apply Hsub.
Qed.

(** A walk that has not returned after one step more than the tree has
    groups has come back to a group it has seen before, and so never
    returns. *)
Lemma walkIter_forever gqm podRequest name :
  is_Some (walkIter gqm podRequest (S (size (quotaInfoMap gqm))) name) ->
  forall n, is_Some (walkIter gqm podRequest n name).
Proof.
  intros Hlong.
  set (visited := (fun i => from_option (resolvedName gqm) EmptyString
                                       (walkIter gqm podRequest i name))
                    <$> seq 0 (S (size (quotaInfoMap gqm)))).
  assert (Hstep : forall i, (i <= size (quotaInfoMap gqm))%nat ->
             exists a, walkIter gqm podRequest i name = Some a /\
                       walkIter gqm podRequest (S i) name = walkNext gqm podRequest a /\
                       is_Some (walkNext gqm podRequest a)).
  { intros i Hi.
    assert (Hnext : is_Some (walkIter gqm podRequest (S i) name))
      by (eapply walkIter_prefix; [|exact Hlong]; lia).
    replace (S i) with (i + 1)%nat in * by lia. rewrite walkIter_add in *.
    destruct (walkIter gqm podRequest i name) as [a|]; [|by destruct Hnext].
    exists a. split; [done|]. simpl in *.
    destruct (walkNext gqm podRequest a); simpl in *; [eauto|by destruct Hnext]. }
  destruct (long_list_lookup visited (dom (quotaInfoMap gqm)))
    as (i & j & x & Hlt & Hi & Hj).
  { intros x Hx. apply list_elem_of_fmap in Hx as (i & -> & Hi).
    apply elem_of_seq in Hi. destruct (Hstep i ltac:(lia)) as (a & -> & _ & Hnext).
    simpl. apply elem_of_dom. by apply walkNext_resolvedName in Hnext as [? _]. }
  { rewrite size_dom. unfold visited. rewrite length_fmap, length_seq. lia. }
  unfold visited in Hi, Hj. rewrite list_lookup_fmap in Hi, Hj.
  destruct (seq 0 (S (size (quotaInfoMap gqm))) !! i) as [i'|] eqn:Ei; [|done].
  destruct (seq 0 (S (size (quotaInfoMap gqm))) !! j) as [j'|] eqn:Ej; [|done].
  apply lookup_seq in Ei as [-> Hi']. apply lookup_seq in Ej as [-> Hj'].
  simpl in Hi, Hj.
  destruct (Hstep i ltac:(lia)) as (a & Ha & Hai & Hnexta).
  destruct (Hstep j ltac:(lia)) as (b & Hb & Hbj & Hnextb).
  rewrite Ha in Hi. rewrite Hb in Hj. simpl in Hi, Hj.
  assert (Hsame : walkIter gqm podRequest (S i) name = walkIter gqm podRequest (S j) name).
  { rewrite Hai, Hbj.
    rewrite <- (proj2 (walkNext_resolvedName _ _ _ Hnexta)).
    rewrite <- (proj2 (walkNext_resolvedName _ _ _ Hnextb)). congruence. }
  intros n. induction (lt_wf n) as [n _ IH].
  destruct (decide (n <= S j)%nat) as [Hle|Hgt].
  - eapply walkIter_prefix; [|exact Hlong]. lia.
  - replace n with (S j + (n - S j))%nat by lia.
    rewrite walkIter_add, <- Hsame, <- walkIter_add. apply IH. lia.
Qed.

(** When [PreFilter] does not return, the walk of the source does not
    return either, however long it runs. *)
Lemma PreFilter_None `{calc : RuntimeCalculator} g cycleState pod :
  PreFilter g cycleState pod = None ->
  forall fuel quotaNameTopo,
    checkQuotaRecursive fuel
      (RefreshRuntime (groupQuotaManager g) (getPodAssociateQuotaName g pod))
      (getPodAssociateQuotaName g pod) quotaNameTopo (PodRequestsAndLimits pod) = None.
Proof.
  intros Hrun fuel quotaNameTopo.
  destruct (GetQuotaInfoByName
              (RefreshRuntime (groupQuotaManager g) (getPodAssociateQuotaName g pod))
              (getPodAssociateQuotaName g pod)) as [qi|] eqn:Hget.
  - rewrite (PreFilter_found _ _ _ _ Hget) in Hrun.
    destruct (negb _); [done|].
    destruct (EnableCheckParentQuota _); [|done].
    destruct (checkQuotaRecursive _ _ _ _ _) eqn:Hwalk; [done|].
    apply checkQuotaRecursive_None. apply walkIter_forever.
    by apply (checkQuotaRecursive_None _ _ _ [getPodAssociateQuotaName g pod]).
  - by rewrite (PreFilter_not_found _ _ _ Hget) in Hrun.
Qed.

(** A parent that the tree does not hold, under strict mode: the walk
    finds the tenant, passes its check, and fails at the parent. *)
Example PreFilter_dangling_parent :
  let orphan :=
    {| Name := "team-a"; ParentName := Some "gone"%string; Min := ∅;
       Max := resources [("cpu"%string, 100)]; SharedWeight := ∅;
       Used := ∅; Request := ∅; Runtime := resources [("cpu"%string, 50)];
       PodCache := ∅ |} in
  let g := {| pluginArgs := scenarioArgs true;
              groupQuotaManager := {| quotaInfoMap := {[ "team-a"%string := orphan ]};
                                      strictMode := true |} |} in
  PreFilter (calc := idleCalculator) g None (cpuPod 5)
  = Some (g, Some {| quotaInfo := orphan; used := Used orphan; runtime := Runtime orphan |},
          NewStatus Error (Text "Could not find the specified ElasticQuota")).
Proof. vm_compute. reflexivity. Qed.

(** ** Unknown tenants *)






Example PreFilter_unknown_tenant_examples :
  PreFilter (calc := idleCalculator) (scenarioPlugin false false) None strayPod
  = Some (scenarioPlugin false false,
          Some {| quotaInfo := defaultQuota; used := Used defaultQuota;
                  runtime := Runtime defaultQuota |},
          NewStatus Success (Text EmptyString)) /\
  PreFilter (calc := idleCalculator) (scenarioPlugin false true) None strayPod
  = Some (scenarioPlugin false true, None,
          NewStatus Error (Text "Could not find the specified ElasticQuota")).
Proof. split; vm_compute; reflexivity. Qed.

(** ** Preemption victims *)

Section PreemptionFacts.

Variable eligibleVictim : Pod -> Pod -> bool.
Variable SelectCandidate : list Candidate -> option Candidate.
Hypothesis SelectCandidate_elem :
  forall candidates c, SelectCandidate candidates = Some c -> c ∈ candidates.

Lemma reprieve_subset g pod nodeInfo state removed v :
  v ∈ reprieve g pod nodeInfo state removed ->
  exists podInfo, podInfo ∈ removed /\ Pod_of podInfo = v.
Proof.
  revert state. induction removed as [|podInfo rest IH]; intros state; simpl.
  - by intros ?%elem_of_nil.
  - destruct (fitsAttempt _ pod).
    + intros (pi' & ? & ?)%IH. exists pi'. split; [by right|done].
    + intros [->|Hin]%elem_of_cons.
      * exists podInfo. split; [by left|done].
      * apply IH in Hin as (pi' & ? & ?). exists pi'. split; [by right|done].
Qed.

Lemma SelectVictimsOnNode_tracked g s pod nodeInfo vs v :
  SelectVictimsOnNode eligibleVictim g (Some s) pod nodeInfo = Some vs -> v ∈ vs ->
  IsPodExist (quotaInfo s) v = true /\ eligibleVictim pod v = true /\
  exists podInfo, podInfo ∈ Pods nodeInfo /\ Pod_of podInfo = v.
Proof.
  unfold SelectVictimsOnNode. cbn [getPostFilterState].
  destruct (fitsAttempt _ pod); [|done]. intros [= <-] Hin.
  apply reprieve_subset in Hin as (podInfo & Hin & <-).
  apply list_elem_of_filter in Hin as [[He Hex] Hin]. eauto.
Qed.

Lemma PostFilter_result g state pod nodes c status :
  PostFilter eligibleVictim SelectCandidate g state pod nodes = (Some c, status) ->
  exists nodeInfo vs,
    nodeInfo ∈ nodes /\ SelectVictimsOnNode eligibleVictim g state pod nodeInfo = Some vs /\
    c = {| candidateNode := node_name nodeInfo; victims := vs |}.
Proof.
  unfold PostFilter, Preempt.
  destruct (SelectCandidate _) as [c'|] eqn:Hsel; simpl; [|done].
  intros [= ->]. apply SelectCandidate_elem in Hsel.
  apply list_elem_of_omap in Hsel as (nodeInfo & Hin & Hsome).
  destruct (SelectVictimsOnNode eligibleVictim g state pod nodeInfo) as [vs|] eqn:Hvs;
    simplify_eq/=.
  eauto.
Qed.

End PreemptionFacts.

Lemma PreFilter_Unschedulable_state
    `{calc : RuntimeCalculator} g cycleState pod g' cycleState' status :
  PreFilter g cycleState pod = Some (g', cycleState', status) ->
  code status = Unschedulable ->
  exists tenant,
    GetQuotaInfoByName (groupQuotaManager g') (getPodAssociateQuotaName g' pod) = Some tenant /\
    cycleState' = Some {| quotaInfo := tenant; used := Used tenant; runtime := Runtime tenant |}.
Proof.
  intros Hrun Hcode. pose proof (PreFilter_plugin _ _ _ _ _ _ Hrun) as ->.
  cbn [groupQuotaManager setGroupQuotaManager].
  change (getPodAssociateQuotaName (setGroupQuotaManager _ g) pod)
    with (getPodAssociateQuotaName g pod).
  destruct (GetQuotaInfoByName
              (RefreshRuntime (groupQuotaManager g) (getPodAssociateQuotaName g pod))
              (getPodAssociateQuotaName g pod)) as [tenant|] eqn:Hget.
  - exists tenant. split; [done|].
    rewrite (PreFilter_found _ _ _ _ Hget) in Hrun.
    destruct (negb _); [by simplify_eq/=|].
    destruct (EnableCheckParentQuota _); [|by simplify_eq/=].
    destruct (checkQuotaRecursive _ _ _ _ _); by simplify_eq/=.
  - rewrite (PreFilter_not_found _ _ _ Hget) in Hrun. by simplify_eq/=.
Qed.

(** C7.  After [PreFilter] has rejected a pod for insufficient quota, every
    victim of the candidate that [PostFilter] returns is a workload
    tracked by the quota group of the pod being scheduled: a workload that
    this tenant does not track is never among the victims, whichever
    candidate and eligibility rule the evaluator applies. *)
Theorem PostFilter_victims_same_tenant
    `{calc : RuntimeCalculator}
    (eligibleVictim : Pod -> Pod -> bool)
    (SelectCandidate : list Candidate -> option Candidate)
    (SelectCandidate_elem :
       forall candidates c, SelectCandidate candidates = Some c -> c ∈ candidates)
    (g : Plugin) (cycleState : CycleState) (pod : Pod)
    (g' : Plugin) (cycleState' : CycleState) (status : Status)
    (filteredNodes : list NodeInfo) (c : Candidate) (status' : Status) :
  PreFilter g cycleState pod = Some (g', cycleState', status) ->
  code status = Unschedulable ->
  PostFilter eligibleVictim SelectCandidate g' cycleState' pod filteredNodes
  = (Some c, status') ->
  exists tenant,
    GetQuotaInfoByName (groupQuotaManager g') (getPodAssociateQuotaName g' pod) = Some tenant /\
    (forall v, v ∈ victims c -> IsPodExist tenant v = true) /\
    (forall v, IsPodExist tenant v = false -> v ∉ victims c).
Proof.
  intros Hrun Hcode Hpost.
  destruct (PreFilter_Unschedulable_state _ _ _ _ _ _ Hrun Hcode) as (tenant & Hget & ->).
  exists tenant. split; [done|].
  apply (PostFilter_result _ _ SelectCandidate_elem) in Hpost
    as (nodeInfo & vs & Hnode & Hvs & ->).
  assert (Hall : forall v, v ∈ vs -> IsPodExist tenant v = true).
  { intros v Hv. by destruct (SelectVictimsOnNode_tracked _ _ _ _ _ _ _ Hvs Hv) as [? _]. }
  split; [exact Hall|]. intros v Hno Hv. apply Hall in Hv. simpl in *. congruence.
Qed.

Lemma head_elem (candidates : list Candidate) c :
  head candidates = Some c -> c ∈ candidates.
Proof. destruct candidates; [done|]. intros [= ->]. by left. Qed.

Lemma PostFilter_victims_same_tenant_witness :
  exists tenant,
    GetQuotaInfoByName (scenarioTree false) "team-a" = Some tenant /\
    (forall v, v ∈ [runningPod] -> IsPodExist tenant v = true) /\
    (forall v, IsPodExist tenant v = false -> v ∉ [runningPod]).
Proof.
  refine (PostFilter_victims_same_tenant
            (calc := idleCalculator) lowerPriority head head_elem
            (scenarioPlugin false false) None (cpuPod 10)
            (scenarioPlugin false false) scenarioState
            (NewStatus Unschedulable
               (InsufficientQuotas "team-a" (Runtime teamA) (Used teamA)
                                   (PodRequestsAndLimits (cpuPod 10)) ["cpu"%string]))
            [node2] {| candidateNode := "node-2"; victims := [runningPod] |}
            (NewStatus Success (Text EmptyString)) _ _ _).
  - vm_compute. reflexivity.
  - reflexivity.
  - vm_compute. reflexivity.
Defined.

(** ** Revoke controller ticks *)

Lemma tick_length n ctrl now gqm : (length (tick n ctrl now gqm).2 <= n)%nat.
Proof. unfold tick. cbn [snd]. rewrite length_take. lia. Qed.

Lemma observe_lookup ctrl now gqm name t :
  observe ctrl now gqm !! name = Some t <->
  overUsedIn gqm name /\ t = default now (overUsedSince ctrl !! name).
Proof.
  unfold observe, overUsedIn. rewrite map_lookup_imap.
  destruct (quotaInfoMap gqm !! name) as [qi|]; simpl.
  - destruct (isOverUsed qi) eqn:Hover; split.
    + intros [= <-]. eauto.
    + by intros [_ ->].
    + done.
    + intros [(qi' & [= <-] & ?) _]. congruence.
  - split; [done|]. by intros [(qi & ? & _) _].
Qed.

Lemma selectVictims_subset used runtime ordered p :
  p ∈ selectVictims used runtime ordered -> p ∈ ordered.
Proof.
  revert used. induction ordered as [|q rest IH]; intros used; cbn [selectVictims]; [done|].
  destruct (LessThanOrEqual used runtime).1; [by intros ?%elem_of_nil|].
  intros [->|Hin]%elem_of_cons; [by left|right; by eapply IH].
Qed.

Lemma groupVictims_tracked qi p :
  p ∈ groupVictims qi -> exists key, PodCache qi !! key = Some p.
Proof.
  unfold groupVictims. intros Hin%selectVictims_subset.
  rewrite merge_sort_Permutation in Hin.
  apply list_elem_of_fmap in Hin as [[key p'] [-> Hin]].
  apply elem_of_map_to_list in Hin. eauto.
Qed.

(** A request issued at a tick is for a group whose over-limit time,
    as kept after the tick, lies more than the grace period back. *)
Lemma tick_request n ctrl now gqm name p :
  (name, p) ∈ (tick n ctrl now gqm).2 ->
  exists t qi,
    observe ctrl now gqm !! name = Some t /\ delayEvictTime ctrl < now - t /\
    quotaInfoMap gqm !! name = Some qi /\ p ∈ groupVictims qi.
Proof.
  unfold tick. cbn [snd]. intros Hin%subseteq_take.
  apply list_elem_of_bind in Hin as ([name' qi] & Hin & Hdue). cbn [fst snd] in Hin.
  apply list_elem_of_fmap in Hin as (p' & [= <- <-] & Hp).
  apply list_elem_of_filter in Hdue as [Hgrace Hqi]. cbn [fst] in Hgrace.
  apply elem_of_map_to_list in Hqi. unfold graceExpired in Hgrace.
  destruct (observe ctrl now gqm !! name) as [t|] eqn:Ht; [|done].
  apply bool_decide_eq_true in Hgrace. eauto 10.
Qed.

Lemma observe_first_seen ctrl past now gqm name t :
  sinceSound ctrl past ->
  observe ctrl now gqm !! name = Some t ->
  exists j gj,
    (past ++ [(now, gqm)]) !! j = Some (t, gj) /\
    forall k tk gk, (j <= k)%nat -> (past ++ [(now, gqm)]) !! k = Some (tk, gk) ->
                    overUsedIn gk name.
Proof.
  intros Hsound [Hover ->]%observe_lookup.
  destruct (overUsedSince ctrl !! name) as [t|] eqn:Hsince; simpl.
  - destruct (Hsound _ _ Hsince) as (j & gj & Hj & Hsince').
    exists j, gj. split; [by apply lookup_app_l_Some|].
    intros k tk gk Hle Hk. apply lookup_app_Some in Hk as [Hk|[_ Hk]].
    + by eapply Hsince'.
    + apply list_lookup_singleton_Some in Hk as [_ [= <- <-]]. done.
  - exists (length past), gqm. split.
    + by rewrite lookup_app_r, Nat.sub_diag.
    + intros k tk gk Hle Hk. apply lookup_app_Some in Hk as [Hk|[_ Hk]].
      * apply lookup_lt_Some in Hk. lia.
      * apply list_lookup_singleton_Some in Hk as [_ [= <- <-]]. done.
Qed.

Lemma tick_sinceSound n ctrl past now gqm :
  sinceSound ctrl past -> sinceSound (tick n ctrl now gqm).1 (past ++ [(now, gqm)]).
Proof. intros Hsound name t Ht. by eapply observe_first_seen. Qed.

Lemma runTicks_grace n ctrl past rest i now gqm ev name p :
  sinceSound ctrl past ->
  rest !! i = Some (now, gqm) ->
  runTicks n ctrl rest !! i = Some ev ->
  (name, p) ∈ ev ->
  exists j t gj,
    (j <= length past + i)%nat /\ (past ++ rest) !! j = Some (t, gj) /\
    delayEvictTime ctrl < now - t /\
    (forall k tk gk, (j <= k <= length past + i)%nat ->
                     (past ++ rest) !! k = Some (tk, gk) -> overUsedIn gk name) /\
    exists qi key, quotaInfoMap gqm !! name = Some qi /\ PodCache qi !! key = Some p.
Proof.
  revert ctrl past i. induction rest as [|[now0 gqm0] rest IH]; intros ctrl past i Hsound;
    [done|].
  destruct i as [|i]; cbn [runTicks lookup list_lookup].
  - intros [= -> ->] [= <-] Hin.
    apply tick_request in Hin as (t & qi & Hobs & Hgrace & Hqi & Hp).
    destruct (observe_first_seen _ _ _ _ _ _ Hsound Hobs) as (j & gj & Hj & Hsince).
    assert (Hlt : (j < length (past ++ [(now, gqm)]))%nat) by by eapply lookup_lt_Some.
    rewrite length_app in Hlt. simpl in Hlt.
    exists j, t, gj. split; [lia|].
    rewrite (cons_middle _ past rest), app_assoc.
    split; [apply lookup_app_l_Some; done|]. split; [done|]. split.
    + intros k tk gk Hk Hlook. eapply (Hsince k tk gk); [lia|].
      rewrite lookup_app_l in Hlook; [done|]. rewrite length_app. simpl. lia.
    + apply groupVictims_tracked in Hp as [key Hkey]. eauto.
  - intros Hi Hev Hin.
    destruct (IH _ (past ++ [(now0, gqm0)]) i (tick_sinceSound n _ _ now0 gqm0 Hsound)
                Hi Hev Hin) as (j & t & gj & Hj & Hlook & Hgrace & Hsince & Htracked).
    rewrite length_app in Hj, Hsince. simpl in Hj, Hsince.
    rewrite <- app_assoc in Hlook, Hsince. simpl in Hlook, Hsince.
    exists j, t, gj. split; [lia|]. split; [done|]. split; [done|]. split; [|done].
    intros k tk gk Hk. apply Hsince. lia.
Qed.

(** C8.  On every tick the revoke controller issues at most
    [evictionsPerTick] eviction requests.  A request for a workload of a
    quota group is issued only if the group has been over its limit at an
    earlier tick lying more than the grace period ([DelayEvictTime]) back,
    and at every tick from that one to the present one. *)
Theorem revoke_bounded_and_after_grace
    (evictionsPerTick : nat) (g : Plugin) (trace : list (Z * GroupQuotaManager)) :
  (forall ctrl now gqm, (length (tick evictionsPerTick ctrl now gqm).2 <= evictionsPerTick)%nat) /\
  (forall i ev,
     runTicks evictionsPerTick (NewControllers g) trace !! i = Some ev ->
     (length ev <= evictionsPerTick)%nat) /\
  (forall i now gqm ev name p,
     trace !! i = Some (now, gqm) ->
     runTicks evictionsPerTick (NewControllers g) trace !! i = Some ev ->
     (name, p) ∈ ev ->
     exists j t gj,
       (j <= i)%nat /\ trace !! j = Some (t, gj) /\
       DelayEvictTime (pluginArgs g) < now - t /\
       (forall k tk gk, (j <= k <= i)%nat -> trace !! k = Some (tk, gk) ->
                        overUsedIn gk name) /\
       exists qi key, quotaInfoMap gqm !! name = Some qi /\ PodCache qi !! key = Some p).
Proof.
  split; [intros; apply tick_length|]. split.
  - generalize (NewControllers g). induction trace as [|[now gqm] rest IH]; intros ctrl i ev;
      [done|].
    destruct i as [|i]; cbn [runTicks lookup list_lookup].
    + intros [= <-]. apply tick_length.
    + apply IH.
  - intros i now gqm ev name p Hi Hev Hin.
    assert (Hsound : sinceSound (NewControllers g) []) by (intros name' t; done).
    destruct (runTicks_grace _ _ _ _ _ _ _ _ _ _ Hsound Hi Hev Hin)
      as (j & t & gj & Hj & Hlook & Hgrace & Hsince & Htracked).
    exists j, t, gj. simpl in *. eauto 10.
Qed.

Example revoke_after_grace_example :
  runTicks 1 (NewControllers (scenarioPlugin false false)) overTrace
  = [[]; []; [("team-a"%string, runningPod)]].
Proof. vm_compute. reflexivity. Qed.

Lemma revoke_bounded_and_after_grace_witness :
  exists j t gj,
    (j <= 2)%nat /\ overTrace !! j = Some (t, gj) /\
    DelayEvictTime (pluginArgs (scenarioPlugin false false)) < 11 - t /\
    (forall k tk gk, (j <= k <= 2)%nat -> overTrace !! k = Some (tk, gk) ->
                     overUsedIn gk "team-a") /\
    exists qi key, quotaInfoMap overTree !! "team-a" = Some qi /\
                   PodCache qi !! key = Some runningPod.
Proof.
  refine (proj2 (proj2 (revoke_bounded_and_after_grace
                          1 (scenarioPlugin false false) overTrace))
                2%nat 11 overTree [("team-a"%string, runningPod)] "team-a" runningPod _ _ _).
  - reflexivity.
  - vm_compute. reflexivity.
  - by left.
Defined.

(** ** Load-aware scores *)

Lemma wrap64_small z : isInt64 z -> wrap64 z = z.
Proof.
  unfold isInt64, wrap64. intros H. rewrite Z.mod_small by lia. lia.
Qed.

Lemma wrap64_range z : isInt64 (wrap64 z).
Proof.
  unfold isInt64, wrap64. pose proof (Z.mod_pos_bound (z + 2 ^ 63) (2 ^ 64)). lia.
Qed.

Lemma wrap64_mod a b : wrap64 a = wrap64 b <-> a mod 2 ^ 64 = b mod 2 ^ 64.
Proof.
  unfold wrap64. split; intros H.
  - assert (Hm : (a + 2 ^ 63) mod 2 ^ 64 = (b + 2 ^ 63) mod 2 ^ 64) by lia.
    rewrite <- (Z.add_simpl_r a (2 ^ 63)), <- (Z.add_simpl_r b (2 ^ 63)).
    rewrite <- (Zminus_mod_idemp_l (a + 2 ^ 63)), Hm.
    by rewrite Zminus_mod_idemp_l.
  - by rewrite <- (Zplus_mod_idemp_l a), H, Zplus_mod_idemp_l.
Qed.

Lemma wrap64_add_r a b : wrap64 (a + wrap64 b) = wrap64 (a + b).
Proof.
  apply wrap64_mod. rewrite <- (Zplus_mod_idemp_r (wrap64 b)), <- (Zplus_mod_idemp_r b).
  f_equal. f_equal. unfold wrap64.
  rewrite Zminus_mod_idemp_l. f_equal. lia.
Qed.

Lemma wrap64_add_l a b : wrap64 (wrap64 a + b) = wrap64 (a + b).
Proof. rewrite (Z.add_comm (wrap64 a)), wrap64_add_r. f_equal. lia. Qed.

(** Within the range where nothing wraps the score is the free share of
    the capacity in percent, rounded down. *)
Lemma leastUsedScore_value used capacity :
  0 <= used <= capacity -> 0 < capacity -> capacity * 100 < 2 ^ 63 ->
  loadaware.leastUsedScore used capacity = (capacity - used) * 100 / capacity.
Proof.
  intros Hu Hc Hmax. unfold loadaware.leastUsedScore, loadaware.MaxNodeScore.
  rewrite decide_False by lia. rewrite decide_False by lia.
  assert (Hq : 0 <= (capacity - used) * 100 / capacity <= 100).
  { split; [apply Z.div_pos; lia|]. apply Z.div_le_upper_bound; lia. }
  rewrite (wrap64_small (capacity - used)) by (unfold isInt64; lia).
  rewrite (wrap64_small ((capacity - used) * 100)) by (unfold isInt64; nia).
  rewrite Z.quot_div_nonneg by lia.
  apply wrap64_small. unfold isInt64. lia.
Qed.

(** Without capacity, or with a usage above it, the score is 0. *)
Lemma leastUsedScore_zero used capacity :
  capacity = 0 \/ capacity < used -> loadaware.leastUsedScore used capacity = 0.
Proof.
  intros H. unfold loadaware.leastUsedScore.
  destruct (decide (capacity = 0)); [done|]. rewrite decide_True by lia. done.
Qed.

Lemma leastUsedScore_bounds used capacity :
  0 <= used -> 0 <= capacity -> capacity * 100 < 2 ^ 63 ->
  0 <= loadaware.leastUsedScore used capacity <= loadaware.MaxNodeScore.
Proof.
  intros Hu Hc Hmax. unfold loadaware.MaxNodeScore.
  destruct (decide (capacity = 0 \/ capacity < used)) as [H|H].
  - rewrite (leastUsedScore_zero _ _ H). lia.
  - rewrite leastUsedScore_value by lia.
    split; [apply Z.div_pos; lia|]. apply Z.div_le_upper_bound; lia.
Qed.

(** X1.  For a usage that is not negative and a capacity whose hundredfold
    fits [int64], [leastUsedScore] lies between 0 and [MaxNodeScore]; it is
    0 for no capacity or a usage above the capacity, the free share in
    percent (rounded down) otherwise, and [MaxNodeScore] exactly when
    nothing is used. *)
Theorem leastUsedScore_in_range (used capacity : Z) :
  0 <= used -> 0 <= capacity -> capacity * 100 < 2 ^ 63 ->
  0 <= loadaware.leastUsedScore used capacity <= loadaware.MaxNodeScore /\
  (capacity = 0 \/ capacity < used -> loadaware.leastUsedScore used capacity = 0) /\
  (0 < capacity -> used <= capacity ->
   loadaware.leastUsedScore used capacity = (capacity - used) * 100 / capacity) /\
  (0 < capacity ->
   (loadaware.leastUsedScore used capacity = loadaware.MaxNodeScore <-> used = 0)).
Proof.
  intros Hu Hc Hmax.
  split; [by apply leastUsedScore_bounds|].
  split; [apply leastUsedScore_zero|].
  split; [intros; apply leastUsedScore_value; lia|].
  unfold loadaware.MaxNodeScore.
  intros Hpos. destruct (decide (used <= capacity)) as [Hle|Hgt].
  - rewrite leastUsedScore_value by lia. split.
    + intros Hfull. destruct (decide (used = 0)) as [|Hne]; [done|exfalso].
      assert ((capacity - used) * 100 / capacity < 100); [|lia].
      apply Z.div_lt_upper_bound; lia.
    + intros ->. rewrite Z.sub_0_r, Z.mul_comm. apply Z.div_mul. lia.
  - rewrite leastUsedScore_zero by lia. lia.
Qed.

Lemma leastUsedScore_in_range_witness :
  0 <= loadaware.leastUsedScore 1500 4000 <= loadaware.MaxNodeScore /\
  loadaware.leastUsedScore 1500 4000 = 62.
Proof.
  split; [|reflexivity].
  refine (proj1 (leastUsedScore_in_range 1500 4000 _ _ _)); lia.
Defined.

(** X2.  More usage never scores higher: within the same range
    [leastUsedScore] is antitone in the usage. *)
Theorem leastUsedScore_antitone (used used' capacity : Z) :
  0 <= used -> used <= used' -> 0 <= capacity -> capacity * 100 < 2 ^ 63 ->
  loadaware.leastUsedScore used' capacity <= loadaware.leastUsedScore used capacity.
Proof.
  intros Hu Hle Hc Hmax.
  destruct (decide (capacity = 0 \/ capacity < used')) as [H|H].
  - rewrite (leastUsedScore_zero _ _ H).
    apply (leastUsedScore_bounds used capacity); lia.
  - rewrite !leastUsedScore_value by lia. apply Z.div_le_mono; lia.
Qed.

Lemma leastUsedScore_antitone_witness :
  loadaware.leastUsedScore 3000 4000 <= loadaware.leastUsedScore 1500 4000.
Proof. apply leastUsedScore_antitone; lia. Defined.

Section ScorerFacts.

Variable getResourceValue : ResourceName -> Quantity -> Z.

Lemma scoreLoop_sums used allocatable entries a b :
  loadaware.scoreLoop getResourceValue used allocatable entries (wrap64 a, wrap64 b)
  = (wrap64 (a + loadaware.weightedScores getResourceValue used allocatable entries),
     wrap64 (b + loadaware.totalWeight entries)).
Proof.
  revert a b. induction entries as [|[resourceName weight] entries IH]; intros a b.
  - simpl. by rewrite !Z.add_0_r.
  - unfold loadaware.scoreLoop in *. cbn [foldl].
    rewrite wrap64_add_r, !wrap64_add_l, IH.
    unfold loadaware.weightedScores, loadaware.totalWeight, loadaware.resourceScore.
    cbn [foldr fst snd]. f_equal; apply (f_equal wrap64); lia.
Qed.

Lemma weightedScores_Permutation used allocatable entries entries' :
  entries ≡ₚ entries' ->
  loadaware.weightedScores getResourceValue used allocatable entries
  = loadaware.weightedScores getResourceValue used allocatable entries'.
Proof.
  unfold loadaware.weightedScores.
  induction 1 as [|e l l' _ IH|e e' l|l l' l'' _ IH _ IH']; cbn [foldr] in *; lia.
Qed.

Lemma totalWeight_Permutation entries entries' :
  entries ≡ₚ entries' -> loadaware.totalWeight entries = loadaware.totalWeight entries'.
Proof.
  induction 1 as [|e l l' _ IH|e e' l|l l' l'' _ IH _ IH']; simpl in *; lia.
Qed.

Lemma loadAwareSchedulingScorerIn_sums entries used allocatable :
  loadaware.loadAwareSchedulingScorerIn getResourceValue entries used allocatable =
  if decide (wrap64 (loadaware.totalWeight entries) = 0) then None
  else Some (wrap64 (Z.quot
                       (wrap64 (loadaware.weightedScores getResourceValue used allocatable
                                                          entries))
                       (wrap64 (loadaware.totalWeight entries)))).
Proof.
  unfold loadaware.loadAwareSchedulingScorerIn.
  change (0, 0) with (wrap64 0, wrap64 0). rewrite scoreLoop_sums. reflexivity.
Qed.

End ScorerFacts.

(** X3.  The node score does not depend on the order in which Go ranges
    over the weight map: the loop run over the weights in any order gives
    what [loadAwareSchedulingScorer] gives, panic included. *)
Theorem loadAwareSchedulingScorer_any_order
    (getResourceValue : ResourceName -> Quantity -> Z)
    (resToWeightMap used : gmap string Z) (allocatable : ResourceList)
    (entries : list (ResourceName * Z)) :
  entries ≡ₚ map_to_list resToWeightMap ->
  loadaware.loadAwareSchedulingScorerIn getResourceValue entries used allocatable
  = loadaware.loadAwareSchedulingScorer getResourceValue resToWeightMap used allocatable.
Proof.
  intros Hperm. unfold loadaware.loadAwareSchedulingScorer.
  rewrite !loadAwareSchedulingScorerIn_sums.
  by rewrite (weightedScores_Permutation _ _ _ _ _ Hperm),
             (totalWeight_Permutation _ _ Hperm).
Qed.

Lemma loadAwareSchedulingScorer_any_order_witness :
  loadaware.loadAwareSchedulingScorerIn plainValue
    [("memory"%string, 3); ("cpu"%string, 1)] nodeUsed nodeAllocatable
  = loadaware.loadAwareSchedulingScorer plainValue nodeWeights nodeUsed nodeAllocatable.
Proof.
  apply loadAwareSchedulingScorer_any_order.
  assert (Hlist : map_to_list nodeWeights = [("cpu"%string, 1); ("memory"%string, 3)])
    by (vm_compute; reflexivity).
  rewrite Hlist. apply perm_swap.
Defined.

Lemma weightedScores_bounds getResourceValue used allocatable entries :
  Forall (fun entry =>
            0 <= entry.2 /\
            0 <= loadaware.resourceScore getResourceValue used allocatable entry
              <= loadaware.MaxNodeScore) entries ->
  0 <= loadaware.totalWeight entries /\
  0 <= loadaware.weightedScores getResourceValue used allocatable entries
    <= loadaware.MaxNodeScore * loadaware.totalWeight entries.
Proof.
  unfold loadaware.weightedScores, loadaware.totalWeight, loadaware.MaxNodeScore.
  induction 1 as [|entry entries [Hw Hs] _ IH]; cbn [foldr]; [lia|]. nia.
Qed.

(** X4.  With weights that are not negative and sum up to something
    positive whose hundredfold fits [int64], usages that are not negative
    and capacities whose hundredfold fits [int64], the node score is the
    weighted mean of the resource scores (rounded down) and lies between
    0 and [MaxNodeScore]. *)
Theorem loadAwareSchedulingScorer_in_range
    (getResourceValue : ResourceName -> Quantity -> Z)
    (resToWeightMap used : gmap string Z) (allocatable : ResourceList) :
  (forall resourceName weight,
     resToWeightMap !! resourceName = Some weight ->
     0 <= weight /\ 0 <= qty used resourceName /\
     0 <= getResourceValue resourceName (qty allocatable resourceName) /\
     getResourceValue resourceName (qty allocatable resourceName) * 100 < 2 ^ 63) ->
  0 < loadaware.totalWeight (map_to_list resToWeightMap) ->
  loadaware.totalWeight (map_to_list resToWeightMap) * 100 < 2 ^ 63 ->
  exists score,
    loadaware.loadAwareSchedulingScorer getResourceValue resToWeightMap used allocatable
    = Some score /\
    0 <= score <= loadaware.MaxNodeScore /\
    score = loadaware.weightedScores getResourceValue used allocatable
              (map_to_list resToWeightMap)
            / loadaware.totalWeight (map_to_list resToWeightMap).
Proof.
  intros Hentries Hpos Hmax. unfold loadaware.loadAwareSchedulingScorer.
  rewrite loadAwareSchedulingScorerIn_sums.
  assert (Hall : Forall (fun entry =>
                           0 <= entry.2 /\
                           0 <= loadaware.resourceScore getResourceValue used allocatable entry
                             <= loadaware.MaxNodeScore)
                        (map_to_list resToWeightMap)).
  { apply Forall_forall. intros [resourceName weight] Hin%elem_of_map_to_list.
    destruct (Hentries _ _ Hin) as (Hw & Hu & Hc & Hcm). split; [exact Hw|].
    unfold loadaware.resourceScore. cbn [fst].
    apply (leastUsedScore_bounds _ _ Hu Hc Hcm). }
  destruct (weightedScores_bounds _ _ _ _ Hall) as [_ Hws].
  set (ws := loadaware.weightedScores getResourceValue used allocatable
               (map_to_list resToWeightMap)) in *.
  set (tw := loadaware.totalWeight (map_to_list resToWeightMap)) in *.
  unfold loadaware.MaxNodeScore in *.
  assert (Hq : 0 <= ws / tw <= 100).
  { split; [apply Z.div_pos; lia|]. apply Z.div_le_upper_bound; lia. }
  rewrite (wrap64_small tw) by (unfold isInt64; lia).
  rewrite (wrap64_small ws) by (unfold isInt64; lia).
  rewrite decide_False by lia. rewrite Z.quot_div_nonneg by lia.
  rewrite wrap64_small by (unfold isInt64; lia). eauto.
Qed.

Lemma loadAwareSchedulingScorer_in_range_witness :
  exists score,
    loadaware.loadAwareSchedulingScorer plainValue nodeWeights nodeUsed nodeAllocatable
    = Some score /\
    0 <= score <= loadaware.MaxNodeScore /\
    score = loadaware.weightedScores plainValue nodeUsed nodeAllocatable
              (map_to_list nodeWeights)
            / loadaware.totalWeight (map_to_list nodeWeights).
Proof.
  apply loadAwareSchedulingScorer_in_range.
  - intros resourceName weight Hw.
    assert (Hin : (resourceName, weight) ∈ [("cpu"%string, 1); ("memory"%string, 3)]).
    { apply elem_of_map_to_list in Hw.
      assert (Hlist : map_to_list nodeWeights = [("cpu"%string, 1); ("memory"%string, 3)])
        by (vm_compute; reflexivity).
      by rewrite Hlist in Hw. }
    apply elem_of_cons in Hin as [[= -> ->]|Hin];
      [|apply list_elem_of_singleton in Hin as [= -> ->]];
      vm_compute; repeat split; congruence.
  - vm_compute. reflexivity.
  - vm_compute. reflexivity.
Defined.

(** X5.  [loadAwareSchedulingScorer] panics on the division exactly when
    the weights sum to zero modulo 2^64; without any weight it always
    panics. *)
Theorem loadAwareSchedulingScorer_panics_iff
    (getResourceValue : ResourceName -> Quantity -> Z)
    (resToWeightMap used : gmap string Z) (allocatable : ResourceList) :
  (loadaware.loadAwareSchedulingScorer getResourceValue resToWeightMap used allocatable = None
   <-> wrap64 (loadaware.totalWeight (map_to_list resToWeightMap)) = 0) /\
  loadaware.loadAwareSchedulingScorer getResourceValue ∅ used allocatable = None.
Proof.
  unfold loadaware.loadAwareSchedulingScorer. split.
  - rewrite loadAwareSchedulingScorerIn_sums. case_decide; split; done.
  - rewrite loadAwareSchedulingScorerIn_sums, map_to_list_empty. reflexivity.
Qed.

(** ** Load-aware filtering *)

Section FilterFacts.

Variable getResourceValue : ResourceName -> Quantity -> Z.
Variable usagePercent : Z -> Z -> Z.

Lemma filterNodeUsageIn_None entries estimatedUsed allocatable prodPod filterProfile :
  loadaware.filterNodeUsageIn getResourceValue usagePercent entries estimatedUsed allocatable
                              prodPod filterProfile = None
  <-> Forall (fun entry =>
                ~ loadaware.overThreshold getResourceValue usagePercent estimatedUsed
                                          allocatable entry) entries.
Proof.
  induction entries as [|[resourceName value] entries IH]; cbn [loadaware.filterNodeUsageIn].
  - split; [constructor|done].
  - rewrite Forall_cons. unfold loadaware.overThreshold at 1. cbn [fst snd].
    repeat case_decide; rewrite ?IH; split; try done; try (intros [? ?]; done);
      try (intros ?; split; [|done]; intros (? & ? & ?); lia).
    intros [Hno _]. destruct Hno. repeat split; [done..|lia].
Qed.

Lemma filterNodeUsageIn_Some entries estimatedUsed allocatable prodPod filterProfile status :
  loadaware.filterNodeUsageIn getResourceValue usagePercent entries estimatedUsed allocatable
                              prodPod filterProfile = Some status ->
  exists entry,
    entry ∈ entries /\
    loadaware.overThreshold getResourceValue usagePercent estimatedUsed allocatable entry /\
    status = rejection prodPod filterProfile entry.1.
Proof.
  induction entries as [|[resourceName value] entries IH]; cbn [loadaware.filterNodeUsageIn];
    [done|].
  assert (Hrest :
            loadaware.filterNodeUsageIn getResourceValue usagePercent entries estimatedUsed
                                        allocatable prodPod filterProfile = Some status ->
            exists entry,
              entry ∈ (resourceName, value) :: entries /\
              loadaware.overThreshold getResourceValue usagePercent estimatedUsed allocatable
                                      entry /\
              status = rejection prodPod filterProfile entry.1).
  { intros (entry & Hin & Hover & ->)%IH. exists entry. split; [by right|done]. }
  repeat case_decide; try exact Hrest.
  intros [= <-]. exists (resourceName, value). split; [by left|]. split; [|done].
  unfold loadaware.overThreshold. cbn [fst snd]. repeat split; [done..|lia].
Qed.

End FilterFacts.

(** X6.  In whatever order Go ranges over the thresholds,
    [filterNodeUsage] returns nil exactly when no threshold is exceeded,
    where a resource with threshold 0 or with no allocatable amount never
    counts as exceeded; a status it returns is [Unschedulable] and names a
    resource whose usage in percent is above its threshold, with the
    aggregated wording exactly for a pod that is not prod under a profile
    with aggregated usage. *)
Theorem filterNodeUsage_rejects_iff_over_threshold
    (getResourceValue : ResourceName -> Quantity -> Z) (usagePercent : Z -> Z -> Z)
    (usageThresholds estimatedUsed : gmap string Z) (allocatable : ResourceList)
    (prodPod : bool) (filterProfile : loadaware.usageThresholdsFilterProfile)
    (entries : list (ResourceName * Z)) :
  entries ≡ₚ map_to_list usageThresholds ->
  (loadaware.filterNodeUsageIn getResourceValue usagePercent entries estimatedUsed
                               allocatable prodPod filterProfile = None
   <-> forall resourceName value,
         usageThresholds !! resourceName = Some value ->
         ~ loadaware.overThreshold getResourceValue usagePercent estimatedUsed allocatable
                                   (resourceName, value)) /\
  (forall status,
     loadaware.filterNodeUsageIn getResourceValue usagePercent entries estimatedUsed
                                 allocatable prodPod filterProfile = Some status ->
     exists resourceName value,
       usageThresholds !! resourceName = Some value /\
       loadaware.overThreshold getResourceValue usagePercent estimatedUsed allocatable
                               (resourceName, value) /\
       status = rejection prodPod filterProfile resourceName) /\
  (loadaware.filterNodeUsageIn getResourceValue usagePercent entries estimatedUsed
                               allocatable prodPod filterProfile = None
   <-> loadaware.filterNodeUsage getResourceValue usagePercent usageThresholds estimatedUsed
                                 allocatable prodPod filterProfile = None).
Proof.
  intros Hperm.
  assert (Hnone : forall l,
             l ≡ₚ map_to_list usageThresholds ->
             loadaware.filterNodeUsageIn getResourceValue usagePercent l estimatedUsed
                                         allocatable prodPod filterProfile = None
             <-> forall resourceName value,
                 usageThresholds !! resourceName = Some value ->
                 ~ loadaware.overThreshold getResourceValue usagePercent estimatedUsed
                                           allocatable (resourceName, value)).
  { intros l Hl. rewrite filterNodeUsageIn_None, Forall_forall. split.
    - intros Hall resourceName value Hin. apply Hall. rewrite Hl.
      by apply elem_of_map_to_list.
    - intros Hall [resourceName value] Hin. apply Hall. apply elem_of_map_to_list.
      by rewrite <- Hl. }
  split; [by apply Hnone|]. split.
  - intros status (entry & Hin & Hover & ->)%filterNodeUsageIn_Some.
    destruct entry as [resourceName value]. exists resourceName, value.
    split; [|done]. apply elem_of_map_to_list. by rewrite <- Hperm.
  - unfold loadaware.filterNodeUsage. rewrite (Hnone entries Hperm).
    by rewrite (Hnone (map_to_list usageThresholds)).
Qed.

Lemma filterNodeUsage_rejects_iff_over_threshold_witness :
  loadaware.filterNodeUsageIn plainValue roundedPercent
    [("memory"%string, 0); ("cpu"%string, 30)] nodeUsed nodeAllocatable false plainProfile
  = Some (NewStatus Unschedulable (Text "node(s) cpu usage exceed threshold")) /\
  exists resourceName value,
    nodeThresholds !! resourceName = Some value /\
    loadaware.overThreshold plainValue roundedPercent nodeUsed nodeAllocatable
                            (resourceName, value) /\
    NewStatus Unschedulable (Text "node(s) cpu usage exceed threshold")
    = rejection false plainProfile resourceName.
Proof.
  assert (Hrun :
            loadaware.filterNodeUsageIn plainValue roundedPercent
              [("memory"%string, 0); ("cpu"%string, 30)] nodeUsed nodeAllocatable false
              plainProfile
            = Some (NewStatus Unschedulable (Text "node(s) cpu usage exceed threshold")))
    by (vm_compute; reflexivity).
  split; [exact Hrun|].
  refine (proj1 (proj2 (filterNodeUsage_rejects_iff_over_threshold
                          plainValue roundedPercent nodeThresholds nodeUsed nodeAllocatable
                          false plainProfile [("memory"%string, 0); ("cpu"%string, 30)] _))
                _ Hrun).
  assert (Hlist : map_to_list nodeThresholds = [("cpu"%string, 30); ("memory"%string, 0)])
    by (vm_compute; reflexivity).
  rewrite Hlist. apply perm_swap.
Defined.

(** ** Estimation windows *)

(** When the pod counts as initialized: the first [Initialized] condition
    is true and carries a transition time that is not the zero time. *)
Lemma shouldEstimatePodByConfig_eq args info now :
  let afterPodScheduled :=
    effectiveSeconds (loadaware.AllowCustomizeEstimation args)
      (loadaware.customEstimatedSecondsAfterPodScheduled (loadaware.pod info))
      (loadaware.EstimatedSecondsAfterPodScheduled args) in
  let afterInitialized :=
    effectiveSeconds (loadaware.AllowCustomizeEstimation args)
      (loadaware.customEstimatedSecondsAfterInitialized (loadaware.pod info))
      (loadaware.EstimatedSecondsAfterInitialized args) in
  loadaware.shouldEstimatePodByConfig args info now =
  match
    (if decide (afterInitialized > 0) then
       match loadaware.GetPodCondition (loadaware.podConditions (loadaware.pod info))
                                       loadaware.PodInitialized with
       | Some c =>
           if decide (loadaware.condStatus c = loadaware.ConditionTrue) then
             if decide (loadaware.condLastTransitionTime c = 0) then None
             else Some (loadaware.condLastTransitionTime c)
           else None
       | None => None
       end
     else None)
  with
  | Some t => bool_decide (now < t + wrap64 (afterInitialized * loadaware.Second))
  | None =>
      if decide (afterPodScheduled > 0) then
        bool_decide (now < loadaware.timestamp info
                           + wrap64 (afterPodScheduled * loadaware.Second))
      else false
  end.
Proof.
  unfold loadaware.shouldEstimatePodByConfig, effectiveSeconds.
  by destruct (loadaware.AllowCustomizeEstimation args).
Qed.

(** X7.  The estimation window only closes: if a pod is to be estimated at
    some time it is to be estimated at every earlier time, and once it is
    not, it is not at any later time. *)
Theorem shouldEstimatePodByConfig_window_closes
    (args : loadaware.LoadAwareSchedulingArgs) (info : loadaware.podAssignInfo)
    (now now' : Z) :
  now <= now' ->
  (loadaware.shouldEstimatePodByConfig args info now' = true ->
   loadaware.shouldEstimatePodByConfig args info now = true) /\
  (loadaware.shouldEstimatePodByConfig args info now = false ->
   loadaware.shouldEstimatePodByConfig args info now' = false).
Proof.
  intros Hle.
  assert (Hmono : loadaware.shouldEstimatePodByConfig args info now' = true ->
                  loadaware.shouldEstimatePodByConfig args info now = true).
  { rewrite !shouldEstimatePodByConfig_eq. cbn zeta.
    destruct (if decide (_ > 0) then _ else None) as [t|].
    - rewrite !bool_decide_eq_true. lia.
    - case_decide; [|done]. rewrite !bool_decide_eq_true. lia. }
  split; [exact Hmono|]. intros Hoff.
  destruct (loadaware.shouldEstimatePodByConfig args info now') eqn:Hon; [|done].
  rewrite Hmono in Hoff; done.
Qed.

(** X8.  For a pod that is initialized (its [Initialized] condition is
    true with a transition time) and a positive number of seconds after
    initialization, the pod is estimated exactly until that many seconds
    after the transition; neither the time of assignment nor the seconds
    after scheduling play a part. *)
Theorem shouldEstimatePodByConfig_initialized
    (args : loadaware.LoadAwareSchedulingArgs) (info : loadaware.podAssignInfo) (now : Z)
    (c : loadaware.PodCondition) :
  let afterInitialized :=
    effectiveSeconds (loadaware.AllowCustomizeEstimation args)
      (loadaware.customEstimatedSecondsAfterInitialized (loadaware.pod info))
      (loadaware.EstimatedSecondsAfterInitialized args) in
  0 < afterInitialized ->
  loadaware.GetPodCondition (loadaware.podConditions (loadaware.pod info))
                            loadaware.PodInitialized = Some c ->
  loadaware.condStatus c = loadaware.ConditionTrue ->
  loadaware.condLastTransitionTime c <> 0 ->
  loadaware.shouldEstimatePodByConfig args info now
  = bool_decide (now < loadaware.condLastTransitionTime c
                       + wrap64 (afterInitialized * loadaware.Second)) /\
  (afterInitialized * loadaware.Second < 2 ^ 63 ->
   (loadaware.shouldEstimatePodByConfig args info now = true
    <-> now < loadaware.condLastTransitionTime c + afterInitialized * loadaware.Second)).
Proof.
  intros afterInitialized Hpos Hcond Htrue Htime.
  assert (Heq : loadaware.shouldEstimatePodByConfig args info now
                = bool_decide (now < loadaware.condLastTransitionTime c
                                     + wrap64 (afterInitialized * loadaware.Second))).
  { rewrite shouldEstimatePodByConfig_eq. cbn zeta. fold afterInitialized.
    rewrite decide_True by lia. rewrite Hcond.
    rewrite decide_True by done. by rewrite decide_False. }
  split; [exact Heq|]. intros Hfit. rewrite Heq, bool_decide_eq_true.
  rewrite wrap64_small; [done|]. unfold isInt64, loadaware.Second in *. lia.
Qed.

Lemma shouldEstimatePodByConfig_window_closes_witness :
  loadaware.shouldEstimatePodByConfig estimationArgs initializedInfo
                                      (1080 * loadaware.Second) = true /\
  (loadaware.shouldEstimatePodByConfig estimationArgs initializedInfo
                                       (1100 * loadaware.Second) = true ->
   loadaware.shouldEstimatePodByConfig estimationArgs initializedInfo
                                       (1080 * loadaware.Second) = true).
Proof.
  split; [reflexivity|].
  refine (proj1 (shouldEstimatePodByConfig_window_closes
                   estimationArgs initializedInfo (1080 * loadaware.Second)
                   (1100 * loadaware.Second) _)).
  unfold loadaware.Second. lia.
Defined.

(** Thirty seconds after initialization at 1060 the window is closed at
    1100, although the six hundred seconds after scheduling at 1000 are
    not over. *)
Lemma shouldEstimatePodByConfig_initialized_witness :
  loadaware.shouldEstimatePodByConfig estimationArgs initializedInfo
                                      (1100 * loadaware.Second)
  = bool_decide (1100 * loadaware.Second
                 < 1060 * loadaware.Second + wrap64 (30 * loadaware.Second)) /\
  loadaware.shouldEstimatePodByConfig estimationArgs initializedInfo
                                      (1100 * loadaware.Second) = false.
Proof.
  split; [|reflexivity].
  refine (proj1 (shouldEstimatePodByConfig_initialized
                   estimationArgs initializedInfo (1100 * loadaware.Second)
                   {| loadaware.condType := "Initialized"; loadaware.condStatus := "True";
                      loadaware.condLastTransitionTime := 1060 * loadaware.Second |}
                   _ _ _ _)).
  - reflexivity.
  - reflexivity.
  - reflexivity.
  - unfold loadaware.Second. simpl. lia.
Defined.

(** X9.  Customization of the estimation windows: with customization off
    the pod's own values are not read; with it on, a pod whose two custom
    values are 0 is never estimated, whatever is configured; and without
    customization and without configured seconds no pod is estimated. *)
Theorem shouldEstimatePodByConfig_customization
    (args : loadaware.LoadAwareSchedulingArgs) (info : loadaware.podAssignInfo) (now : Z) :
  (loadaware.AllowCustomizeEstimation args = false ->
   forall info',
     loadaware.timestamp info' = loadaware.timestamp info ->
     loadaware.podConditions (loadaware.pod info')
     = loadaware.podConditions (loadaware.pod info) ->
     loadaware.shouldEstimatePodByConfig args info' now
     = loadaware.shouldEstimatePodByConfig args info now) /\
  (loadaware.AllowCustomizeEstimation args = true ->
   loadaware.customEstimatedSecondsAfterPodScheduled (loadaware.pod info) = 0 ->
   loadaware.customEstimatedSecondsAfterInitialized (loadaware.pod info) = 0 ->
   loadaware.shouldEstimatePodByConfig args info now = false) /\
  (loadaware.AllowCustomizeEstimation args = false ->
   loadaware.EstimatedSecondsAfterPodScheduled args = None ->
   loadaware.EstimatedSecondsAfterInitialized args = None ->
   loadaware.shouldEstimatePodByConfig args info now = false).
Proof.
  split; [|split].
  - intros Hoff info' Htime Hconds. rewrite !shouldEstimatePodByConfig_eq. cbn zeta.
    unfold effectiveSeconds. by rewrite Hoff, Htime, Hconds.
  - intros Hon Hs Hi. rewrite shouldEstimatePodByConfig_eq. cbn zeta.
    unfold effectiveSeconds. rewrite Hon, Hs, Hi.
    destruct (loadaware.EstimatedSecondsAfterPodScheduled args),
             (loadaware.EstimatedSecondsAfterInitialized args); reflexivity.
  - intros Hoff Hs Hi. rewrite shouldEstimatePodByConfig_eq. cbn zeta.
    unfold effectiveSeconds. by rewrite Hoff, Hs, Hi.
Qed.

Lemma shouldEstimatePodByConfig_customization_witness :
  loadaware.shouldEstimatePodByConfig customizingArgs
    {| loadaware.timestamp := 1000 * loadaware.Second; loadaware.pod := optedOutPod;
       loadaware.estimated := None |}
    (1001 * loadaware.Second) = false.
Proof.
  refine (proj1 (proj2 (shouldEstimatePodByConfig_customization
                          customizingArgs
                          {| loadaware.timestamp := 1000 * loadaware.Second;
                             loadaware.pod := optedOutPod; loadaware.estimated := None |}
                          (1001 * loadaware.Second))) _ _ _); reflexivity.
Defined.

(** ** Simulated accounting over several pods *)

Lemma simStep_frame podToSchedule g state op g1 state1 :
  simStep podToSchedule (g, state) op = (g1, state1) ->
  g1 = g /\
  (state = None -> state1 = None) /\
  (forall s, state = Some s ->
             exists s1, state1 = Some s1 /\
                        quotaInfo s1 = quotaInfo s /\ runtime s1 = runtime s).
Proof.
  assert (Hsame : (g1, state1) = (g, state) ->
                  g1 = g /\
                  (state = None -> state1 = None) /\
                  (forall s, state = Some s ->
                             exists s1, state1 = Some s1 /\
                                        quotaInfo s1 = quotaInfo s /\
                                        runtime s1 = runtime s)).
  { intros [= -> ->]. repeat split; [done|]. intros s' ->. eauto. }
  destruct op as [podInfo ni|podInfo ni]; unfold simStep; cbn [fst snd];
    (destruct (accounted state (Pod_of podInfo)) eqn:E;
     [destruct (accounted_Some _ _ E) as [s ->]|]).
  - rewrite (AddPod_accounted g s) by exact E. intros [= <- <-].
    repeat split; [done|]. intros s0 [= <-]. eauto.
  - rewrite (AddPod_not_accounted g state) by exact E. intros [= <- <-]. by apply Hsame.
  - rewrite (RemovePod_accounted g s) by exact E. intros [= <- <-].
    repeat split; [done|]. intros s0 [= <-]. eauto.
  - rewrite (RemovePod_not_accounted g state) by exact E. intros [= <- <-]. by apply Hsame.
Qed.

(** X10.  Whatever sequence of [AddPod] and [RemovePod] calls runs on a
    scheduling attempt, the plugin is left as it was, a cycle state
    without per-attempt state stays without one, and a per-attempt state
    keeps its quota snapshot and its runtime: only its used vector can
    change. *)
Theorem simulate_frame
    (podToSchedule : Pod) (g : Plugin) (state : CycleState) (ops : list SimOp) :
  (simulate podToSchedule (g, state) ops).1 = g /\
  (state = None -> (simulate podToSchedule (g, state) ops).2 = None) /\
  (forall s, state = Some s ->
             exists s', (simulate podToSchedule (g, state) ops).2 = Some s' /\
                        quotaInfo s' = quotaInfo s /\ runtime s' = runtime s).
Proof.
  unfold simulate. revert g state.
  induction ops as [|op ops IH]; intros g state; cbn [foldl].
  - repeat split; [done|]. intros s ->. eauto.
  - destruct (simStep podToSchedule (g, state) op) as [g1 state1] eqn:Estep.
    apply simStep_frame in Estep as (-> & Hnone & Hsome).
    destruct (IH g state1) as (IHg & IHnone & IHsome).
    split; [exact IHg|]. split.
    + intros Hs. apply IHnone, Hnone, Hs.
    + intros s Hs. destruct (Hsome s Hs) as (s1 & -> & Hq & Hr).
      destruct (IHsome s1 eq_refl) as (s' & -> & Hq' & Hr').
      exists s'. split; [done|]. split; congruence.
Qed.

Lemma accounted_setUsed s u pod :
  accounted (Some (setUsed u s)) pod = accounted (Some s) pod.
Proof. reflexivity. Qed.

(** X11.  Simulated additions add up: after [AddPod] for each pod of a
    list, the per-attempt used vector is, in every dimension, what it was
    plus the requests of the pods that are no reservation pods and that
    the quota tracks; the order of the additions does not matter. *)
Theorem AddPod_accumulates
    (podToSchedule : Pod) (g : Plugin) (s : PostFilterState) (nodeInfo : NodeInfo)
    (pods : list PodInfo) (k : ResourceName) :
  cycleUsed (simulate podToSchedule (g, Some s) (addsOf nodeInfo pods)).2 k
  = qty (used s) k + accountedRequests s pods k /\
  (forall pods',
     pods ≡ₚ pods' ->
     cycleUsed (simulate podToSchedule (g, Some s) (addsOf nodeInfo pods')).2 k
     = cycleUsed (simulate podToSchedule (g, Some s) (addsOf nodeInfo pods)).2 k).
Proof.
  assert (Hsum : forall l u,
             cycleUsed (simulate podToSchedule (g, Some (setUsed u s)) (addsOf nodeInfo l)).2 k
             = qty u k + accountedRequests s l k).
  { unfold simulate, addsOf, accountedRequests.
    induction l as [|podInfo l IH]; intros u; cbn [fmap list_fmap foldl foldr simStep].
    - simpl. lia.
    - cbn [fst snd]. destruct (accounted (Some s) (Pod_of podInfo)) eqn:E.
      + rewrite AddPod_accounted by (by rewrite accounted_setUsed). cbn [fst snd].
        change (setUsed ?v (setUsed u s)) with (setUsed v s).
        rewrite IH. cbn [used setUsed]. rewrite qty_Add. lia.
      + rewrite AddPod_not_accounted by (by rewrite accounted_setUsed). cbn [fst snd].
        rewrite IH. lia. }
  assert (Hs : s = setUsed (used s) s) by by destruct s.
  split.
  - rewrite Hs at 1. rewrite Hsum. reflexivity.
  - intros pods' Hperm. rewrite Hs. rewrite !Hsum. f_equal.
    unfold accountedRequests. clear -Hperm.
    induction Hperm as [|x l l' _ IH|x y l|l l' l'' _ IH _ IH']; cbn [foldr] in *; lia.
Qed.

Lemma qty_Subtract a b k :
  nonneg b -> qty (SubtractWithNonNegativeResult a b) k = Z.max 0 (qty a k - qty b k).
Proof.
  intros Hb. unfold qty. rewrite lookup_Subtract.
  destruct (a !! k) as [u|]; destruct (b !! k) as [r|] eqn:Hr; simpl; try lia.
  specialize (Hb _ _ Hr). lia.
Qed.

Lemma accountedRequests_nonneg s pods k :
  accountedNonneg s pods -> 0 <= accountedRequests s pods k.
Proof.
  unfold accountedRequests. induction 1 as [|podInfo pods Hreq _ IH]; cbn [foldr]; [lia|].
  destruct (accounted (Some s) (Pod_of podInfo)); [|lia].
  pose proof (qty_nonneg _ k (Hreq eq_refl)). lia.
Qed.

(** X12.  Simulated removals add up under the floor: after [RemovePod]
    for each pod of a list, the per-attempt used vector is, in every
    dimension, what it was minus the requests of the counted pods, or 0
    where that would be negative; so the order of the removals does not
    matter. *)
Theorem RemovePod_accumulates
    (podToSchedule : Pod) (g : Plugin) (s : PostFilterState) (nodeInfo : NodeInfo)
    (pods : list PodInfo) (k : ResourceName) :
  nonneg (used s) ->
  accountedNonneg s pods ->
  cycleUsed (simulate podToSchedule (g, Some s) (removesOf nodeInfo pods)).2 k
  = Z.max 0 (qty (used s) k - accountedRequests s pods k) /\
  (forall pods',
     pods ≡ₚ pods' ->
     cycleUsed (simulate podToSchedule (g, Some s) (removesOf nodeInfo pods')).2 k
     = cycleUsed (simulate podToSchedule (g, Some s) (removesOf nodeInfo pods)).2 k).
Proof.
  intros Hused Hpods.
  assert (Hsum : forall l u,
             nonneg u -> accountedNonneg s l ->
             cycleUsed (simulate podToSchedule (g, Some (setUsed u s))
                                 (removesOf nodeInfo l)).2 k
             = Z.max 0 (qty u k - accountedRequests s l k)).
  { unfold simulate, removesOf.
    induction l as [|podInfo l IH]; intros u Hu Hl; cbn [fmap list_fmap foldl simStep].
    - simpl. pose proof (qty_nonneg _ k Hu). lia.
    - apply Forall_cons in Hl as [Hreq Hl].
      pose proof (accountedRequests_nonneg s l k Hl) as Hrest.
      unfold accountedRequests in *. cbn [fst snd foldr].
      destruct (accounted (Some s) (Pod_of podInfo)) eqn:E.
      + rewrite RemovePod_accounted by (by rewrite accounted_setUsed). cbn [fst snd].
        change (setUsed ?v (setUsed u s)) with (setUsed v s).
        rewrite IH by (done || apply Subtract_nonneg). cbn [used setUsed].
        rewrite qty_Subtract by (by apply Hreq). lia.
      + rewrite RemovePod_not_accounted by (by rewrite accounted_setUsed). cbn [fst snd].
        rewrite IH by done. lia. }
  assert (Hs : s = setUsed (used s) s) by by destruct s.
  split.
  - rewrite Hs at 1. by rewrite Hsum.
  - intros pods' Hperm.
    assert (Hpods' : accountedNonneg s pods') by (unfold accountedNonneg; by rewrite <- Hperm).
    rewrite Hs. rewrite !Hsum by done. do 2 f_equal.
    unfold accountedRequests. clear -Hperm.
    induction Hperm as [|x l l' _ IH|x y l|l l' l'' _ IH _ IH']; cbn [foldr] in *; lia.
Qed.

Lemma RemovePod_accumulates_witness :
  cycleUsed (simulate (cpuPod 5) (scenarioPlugin false false, crowdedState)
                      (removesOf node1 [onNode runningPod; onNode batchPod])).2 "cpu"
  = Z.max 0 (60 - (45 + (40 + 0))) /\
  cycleUsed (simulate (cpuPod 5) (scenarioPlugin false false, crowdedState)
                      (removesOf node1 [onNode runningPod; onNode batchPod])).2 "cpu" = 0.
Proof.
  split; [|vm_compute; reflexivity].
  refine (proj1 (RemovePod_accumulates (cpuPod 5) (scenarioPlugin false false) _ node1
                   [onNode runningPod; onNode batchPod] "cpu"%string _ _)).
  - apply nonneg_check. vm_compute. reflexivity.
  - repeat constructor; intros _; apply nonneg_check; vm_compute; reflexivity.
Defined.

(** ** Admission is monotone in the request *)

Lemma Add_request_mono r r' quotaUsed k other :
  requestLe r r' ->
  Add r quotaUsed !! k = Some other ->
  exists other', Add r' quotaUsed !! k = Some other' /\ other <= other'.
Proof.
  intros Hle. specialize (Hle k). rewrite !lookup_Add.
  destruct (r !! k) as [x|], (r' !! k) as [x'|], (quotaUsed !! k) as [u|];
    intros [= <-]; try done; eexists; (split; [done|lia]).
Qed.

Lemma fits_request_mono r r' qi :
  requestLe r r' -> fits r' qi = true -> fits r qi = true.
Proof.
  intros Hle Hfit. unfold fits in *.
  apply LessThanOrEqual_true. intros k limit other Hlimit Hother.
  destruct (Add_request_mono _ _ _ _ _ Hle Hother) as (other' & Hother' & Hbound).
  pose proof (proj1 (LessThanOrEqual_true _ _) Hfit _ _ _ Hlimit Hother'). lia.
Qed.

Lemma checkQuotaRecursive_request_mono fuel gqm name topo r r' status :
  requestLe r r' ->
  checkQuotaRecursive fuel gqm name topo r = Some status ->
  code status = Unschedulable ->
  exists status',
    checkQuotaRecursive fuel gqm name topo r' = Some status' /\
    code status' = Unschedulable.
Proof.
  intros Hle. revert name topo.
  induction fuel as [|fuel IH]; intros name topo; [done|].
  rewrite !checkQuotaRecursive_step.
  destruct (GetQuotaInfoByName gqm name) as [qi|]; [|by intros [= <-]].
  destruct (fits r' qi) eqn:Hfit'.
  - rewrite (fits_request_mono _ _ _ Hle Hfit'). cbn [negb].
    destruct (ParentName qi) as [parent|]; [apply IH|by intros [= <-]].
  - intros _ _. cbn [negb]. eauto.
Qed.

(** X13.  Admission is monotone in the request: if [PreFilter] rejects a
    pod as [Unschedulable], it rejects as [Unschedulable] every pod of the
    same quota that requests at least as much in every dimension. *)
Theorem PreFilter_rejection_monotone
    `{calc : RuntimeCalculator} (g : Plugin) (cycleState : CycleState) (pod pod' : Pod)
    (g1 : Plugin) (cycleState1 : CycleState) (status : Status) :
  pod_quotaName pod' = pod_quotaName pod ->
  requestLe (PodRequestsAndLimits pod) (PodRequestsAndLimits pod') ->
  PreFilter g cycleState pod = Some (g1, cycleState1, status) ->
  code status = Unschedulable ->
  exists status',
    PreFilter g cycleState pod' = Some (g1, cycleState1, status') /\
    code status' = Unschedulable.
Proof.
  intros Hname Hle Hrun Hcode.
  assert (Hq : getPodAssociateQuotaName g pod' = getPodAssociateQuotaName g pod)
    by (unfold getPodAssociateQuotaName; by rewrite Hname).
  destruct (GetQuotaInfoByName
              (RefreshRuntime (groupQuotaManager g) (getPodAssociateQuotaName g pod))
              (getPodAssociateQuotaName g pod)) as [qi|] eqn:Hget.
  - assert (Hget' := Hget). rewrite <- Hq in Hget'.
    rewrite (PreFilter_found _ _ _ _ Hget) in Hrun.
    rewrite (PreFilter_found _ _ _ _ Hget'). rewrite !Hq.
    change (LessThanOrEqual (Add (PodRequestsAndLimits pod) (Used qi)) (Runtime qi)).1
      with (fits (PodRequestsAndLimits pod) qi) in Hrun.
    change (LessThanOrEqual (Add (PodRequestsAndLimits pod') (Used qi)) (Runtime qi)).1
      with (fits (PodRequestsAndLimits pod') qi).
    destruct (fits (PodRequestsAndLimits pod') qi) eqn:Hfit'; cbn [negb].
    + rewrite (fits_request_mono _ _ _ Hle Hfit') in Hrun. cbn [negb] in Hrun.
      destruct (EnableCheckParentQuota (pluginArgs g)); [|by simplify_eq/=].
      destruct (checkQuotaRecursive _ _ _ _ (PodRequestsAndLimits pod)) as [st|] eqn:Hwalk;
        [|done]. simpl in Hrun. injection Hrun as <- <- <-.
      destruct (checkQuotaRecursive_request_mono _ _ _ _ _ _ _ Hle Hwalk Hcode)
        as (status' & -> & Hcode'). simpl. eauto.
    + destruct (negb (fits (PodRequestsAndLimits pod) qi)).
      * injection Hrun as <- <- <-. eauto.
      * destruct (EnableCheckParentQuota (pluginArgs g)).
        -- destruct (checkQuotaRecursive _ _ _ _ (PodRequestsAndLimits pod)); [|done].
           simpl in Hrun. injection Hrun as <- <- <-. eauto.
        -- injection Hrun as <- <- <-. eauto.
  - rewrite (PreFilter_not_found _ _ _ Hget) in Hrun. by simplify_eq/=.
Qed.

Lemma PreFilter_rejection_monotone_witness :
  exists status',
    PreFilter (calc := idleCalculator) (scenarioPlugin false false) None (cpuPod 20)
    = Some (scenarioPlugin false false, scenarioState, status') /\
    code status' = Unschedulable.
Proof.
  refine (PreFilter_rejection_monotone
            (calc := idleCalculator) (scenarioPlugin false false) None (cpuPod 10) (cpuPod 20)
            (scenarioPlugin false false) scenarioState
            (NewStatus Unschedulable
               (InsufficientQuotas "team-a" (Runtime teamA) (Used teamA)
                                   (PodRequestsAndLimits (cpuPod 10)) ["cpu"%string]))
            _ _ _ _).
  - reflexivity.
  - intros k. unfold cpuPod, workload, PodRequestsAndLimits, resources. simpl.
    destruct (decide (k = "cpu"%string)) as [->|Hne].
    + rewrite !lookup_insert_eq. lia.
    + rewrite !lookup_insert_ne by congruence. by rewrite lookup_empty.
  - vm_compute. reflexivity.
  - reflexivity.
Defined.

(** ** Estimated usage of assigned pods *)

Section EstimateFacts.

Variable getResourceValue : ResourceName -> Quantity -> Z.
Variable missedLatestUpdateTime : Z -> Z -> bool.
Variable stillInTheReportInterval : Z -> Z -> Z -> bool.

Lemma lookup_addEstimated estimated podUsage estimatedUsed resourceName :
  loadaware.addEstimated getResourceValue estimated podUsage estimatedUsed !! resourceName =
  match estimated !! resourceName with
  | Some value =>
      Some (wrap64 (qty estimatedUsed resourceName
                    + loadaware.estimatedValue getResourceValue podUsage resourceName value))
  | None => estimatedUsed !! resourceName
  end.
Proof.
  unfold loadaware.addEstimated. revert resourceName.
  apply (map_fold_weak_ind
           (fun result (m : gmap string Z) =>
              forall resourceName,
                result !! resourceName =
                match m !! resourceName with
                | Some value =>
                    Some (wrap64 (qty estimatedUsed resourceName
                                  + loadaware.estimatedValue getResourceValue podUsage
                                                             resourceName value))
                | None => estimatedUsed !! resourceName
                end)).
  - intros resourceName. by rewrite lookup_empty.
  - intros i x m result Hfresh IH resourceName.
    destruct (decide (i = resourceName)) as [->|Hne].
    + rewrite !lookup_insert_eq. unfold qty at 1. by rewrite IH, Hfresh.
    + rewrite !lookup_insert_ne by done. apply IH.
Qed.

Lemma qty_addEstimated estimated podUsage estimatedUsed resourceName :
  wrap64 (qty (loadaware.addEstimated getResourceValue estimated podUsage estimatedUsed)
              resourceName)
  = wrap64 (qty estimatedUsed resourceName
            + match estimated !! resourceName with
              | Some value =>
                  loadaware.estimatedValue getResourceValue podUsage resourceName value
              | None => 0
              end).
Proof.
  unfold qty at 1. rewrite lookup_addEstimated.
  destruct (estimated !! resourceName) as [value|]; simpl.
  - rewrite (wrap64_small (wrap64 _)) by apply wrap64_range. reflexivity.
  - by rewrite Z.add_0_r.
Qed.

End EstimateFacts.

Section EstimateSums.

Variable getResourceValue : ResourceName -> Quantity -> Z.
Variable missedLatestUpdateTime : Z -> Z -> bool.
Variable stillInTheReportInterval : Z -> Z -> Z -> bool.
Variable args : loadaware.LoadAwareSchedulingArgs.
Variable now : Z.
Variable updateTime : option Z.
Variable nodeMetricReportInterval : Z.
Variable aggregatedUsageMissing : bool.
Variable podMetrics : gmap (string * string) ResourceList.
Variable filterProdPod : bool.

Local Abbreviation step :=
  (loadaware.estimateStep getResourceValue missedLatestUpdateTime stillInTheReportInterval
     args now (default 0 updateTime) nodeMetricReportInterval aggregatedUsageMissing
     podMetrics filterProdPod).
Local Abbreviation isCounted :=
  (loadaware.counted missedLatestUpdateTime stillInTheReportInterval args now updateTime
     nodeMetricReportInterval aggregatedUsageMissing podMetrics filterProdPod).
Local Abbreviation sumOf :=
  (loadaware.countedContributions getResourceValue missedLatestUpdateTime
     stillInTheReportInterval args now updateTime nodeMetricReportInterval
     aggregatedUsageMissing podMetrics filterProdPod).

Lemma estimateStep_counted estimatedUsed estimatedPods assignInfo :
  isCounted assignInfo = true ->
  exists estimated,
    loadaware.estimated assignInfo = Some estimated /\
    step (estimatedUsed, estimatedPods) assignInfo
    = (loadaware.addEstimated getResourceValue estimated
         (default ∅ (podMetrics !! loadaware.namespacedName (loadaware.pod assignInfo)))
         estimatedUsed,
       {[loadaware.namespacedName (loadaware.pod assignInfo)]} ∪ estimatedPods).
Proof.
  unfold loadaware.counted, loadaware.estimateStep.
  intros [[Hprod Hneeds]%andb_true_iff Hest]%andb_true_iff.
  apply negb_true_iff in Hprod. apply bool_decide_eq_true in Hest as [estimated Hest].
  rewrite Hprod, Hneeds, Hest. eauto.
Qed.

Lemma estimateStep_not_counted acc assignInfo :
  isCounted assignInfo = false -> step acc assignInfo = acc.
Proof.
  unfold loadaware.counted, loadaware.estimateStep. destruct acc as [estimatedUsed estimatedPods].
  destruct (filterProdPod && negb (loadaware.podIsProd (loadaware.pod assignInfo)));
    [done|]. cbn [negb andb].
  destruct (loadaware.needsEstimate _ _ _ _ _ _ _ _ _); [|done]. cbn [andb].
  destruct (loadaware.estimated assignInfo); [|done].
  intros Hf%bool_decide_eq_false. destruct Hf. eauto.
Qed.

Lemma estimate_loop assignedPodsOnNode estimatedUsed estimatedPods :
  inRange estimatedUsed ->
  let result := foldl step (estimatedUsed, estimatedPods) assignedPodsOnNode in
  inRange result.1 /\
  (forall resourceName,
     qty result.1 resourceName
     = wrap64 (qty estimatedUsed resourceName + sumOf resourceName assignedPodsOnNode)) /\
  (forall resourceName,
     is_Some (result.1 !! resourceName) ->
     is_Some (estimatedUsed !! resourceName) \/
     exists assignInfo estimated,
       assignInfo ∈ assignedPodsOnNode /\ isCounted assignInfo = true /\
       loadaware.estimated assignInfo = Some estimated /\
       is_Some (estimated !! resourceName)) /\
  (forall name,
     name ∈ result.2 <->
     name ∈ estimatedPods \/
     exists assignInfo,
       assignInfo ∈ assignedPodsOnNode /\ isCounted assignInfo = true /\
       loadaware.namespacedName (loadaware.pod assignInfo) = name).
Proof.
  revert estimatedUsed estimatedPods.
  induction assignedPodsOnNode as [|assignInfo rest IH]; intros estimatedUsed estimatedPods Hr;
    cbn [foldl].
  - cbn zeta. cbn [fst snd]. split; [done|]. split; [|split].
    + intros resourceName. unfold loadaware.countedContributions. cbn [foldr].
      rewrite Z.add_0_r. symmetry. apply wrap64_small.
      unfold qty. destruct (estimatedUsed !! resourceName) eqn:E; simpl; [by eapply Hr|].
      unfold isInt64. lia.
    + eauto.
    + intros name. split; [eauto|]. intros [?|(? & Hin & _)]; [done|].
      by apply elem_of_nil in Hin.
  - destruct (isCounted assignInfo) eqn:Hc.
    + destruct (estimateStep_counted estimatedUsed estimatedPods assignInfo Hc)
        as (estimated & Hest & ->).
      set (podUsage := default ∅ (podMetrics !! _)).
      assert (Hr' : inRange (loadaware.addEstimated getResourceValue estimated podUsage
                                                    estimatedUsed)).
      { intros resourceName value. rewrite lookup_addEstimated.
        destruct (estimated !! resourceName); [|apply Hr].
        intros [= <-]. apply wrap64_range. }
      destruct (IH _ ({[loadaware.namespacedName (loadaware.pod assignInfo)]} ∪ estimatedPods)
                   Hr') as (IHr & IHq & IHk & IHn).
      cbn zeta in *. split; [exact IHr|]. split; [|split].
      * intros resourceName. rewrite IHq.
        rewrite <- wrap64_add_l, qty_addEstimated, wrap64_add_l.
        unfold loadaware.countedContributions. cbn [foldr]. rewrite Hc.
        unfold loadaware.contribution. rewrite Hest. fold podUsage.
        apply (f_equal wrap64). lia.
      * intros resourceName Hsome. destruct (IHk _ Hsome) as [Hold|Hnew].
        -- rewrite lookup_addEstimated in Hold.
           destruct (estimated !! resourceName) as [value|] eqn:Hv; [|by left].
           right. exists assignInfo, estimated. rewrite Hv. split; [by left|eauto].
        -- right. destruct Hnew as (info & est & Hin & ?). exists info, est.
           split; [by right|done].
      * intros name. rewrite IHn, elem_of_union, elem_of_singleton. split.
        -- intros [[->|?]|(info & Hin & ?)]; [right|by left|right].
           ++ exists assignInfo. split; [by left|done].
           ++ exists info. split; [by right|done].
        -- intros [?|(info & [->|Hin]%elem_of_cons & Hcount & Hname)]; [by left; right|..].
           ++ left; by left.
           ++ right. eauto.
    + rewrite (estimateStep_not_counted _ _ Hc).
      destruct (IH estimatedUsed estimatedPods Hr) as (IHr & IHq & IHk & IHn).
      cbn zeta in *. split; [exact IHr|]. split; [|split].
      * intros resourceName. rewrite IHq. unfold loadaware.countedContributions.
        cbn [foldr]. rewrite Hc. apply (f_equal wrap64). lia.
      * intros resourceName Hsome. destruct (IHk _ Hsome) as [?|(info & est & Hin & ?)];
          [by left|]. right. exists info, est. split; [by right|done].
      * intros name. rewrite IHn. split.
        -- intros [?|(info & Hin & ?)]; [by left|]. right. exists info.
           split; [by right|done].
        -- intros [?|(info & [->|Hin]%elem_of_cons & Hcount & Hname)]; [by left|..].
           ++ congruence.
           ++ right. eauto.
Qed.

End EstimateSums.

(** X14.  [estimatedAssignedPodUsed] adds up, per resource and modulo
    2^64, the estimate or the larger reported usage of every assigned pod
    that is to be estimated and has an estimate (prod pods only when
    filtering for prod).  A resource gets a sum only if some such pod has
    an estimate for it, so a resource that pods only report usage for is
    never counted; and the set of estimated pods holds exactly the names
    of those pods. *)
Theorem estimatedAssignedPodUsed_sums
    (getResourceValue : ResourceName -> Quantity -> Z)
    (missedLatestUpdateTime : Z -> Z -> bool)
    (stillInTheReportInterval : Z -> Z -> Z -> bool)
    (args : loadaware.LoadAwareSchedulingArgs)
    (assignedPodsOnNode : list loadaware.podAssignInfo) (now : Z) (updateTime : option Z)
    (nodeMetricReportInterval : Z) (aggregatedUsageMissing : bool)
    (podMetrics : gmap (string * string) ResourceList) (filterProdPod : bool) :
  let result :=
    loadaware.estimatedAssignedPodUsed getResourceValue missedLatestUpdateTime
      stillInTheReportInterval args assignedPodsOnNode now updateTime
      nodeMetricReportInterval aggregatedUsageMissing podMetrics filterProdPod in
  let isCounted :=
    loadaware.counted missedLatestUpdateTime stillInTheReportInterval args now updateTime
      nodeMetricReportInterval aggregatedUsageMissing podMetrics filterProdPod in
  (forall resourceName,
     qty result.1 resourceName
     = wrap64 (loadaware.countedContributions getResourceValue missedLatestUpdateTime
                 stillInTheReportInterval args now updateTime nodeMetricReportInterval
                 aggregatedUsageMissing podMetrics filterProdPod resourceName
                 assignedPodsOnNode)) /\
  (forall resourceName,
     is_Some (result.1 !! resourceName) ->
     exists assignInfo estimated,
       assignInfo ∈ assignedPodsOnNode /\ isCounted assignInfo = true /\
       loadaware.estimated assignInfo = Some estimated /\
       is_Some (estimated !! resourceName)) /\
  (forall name,
     name ∈ result.2 <->
     exists assignInfo,
       assignInfo ∈ assignedPodsOnNode /\ isCounted assignInfo = true /\
       loadaware.namespacedName (loadaware.pod assignInfo) = name).
Proof.
  cbn zeta. unfold loadaware.estimatedAssignedPodUsed.
  destruct (estimate_loop getResourceValue missedLatestUpdateTime stillInTheReportInterval
              args now updateTime nodeMetricReportInterval aggregatedUsageMissing
              podMetrics filterProdPod assignedPodsOnNode ∅ ∅)
    as (_ & Hq & Hk & Hn); [by intros r v; rewrite lookup_empty|].
  cbn zeta in *. split; [|split].
  - intros resourceName. rewrite Hq. unfold qty at 1. rewrite lookup_empty. simpl.
    by rewrite Z.add_0_l.
  - intros resourceName Hsome. destruct (Hk _ Hsome) as [Hempty|?]; [|done].
    rewrite lookup_empty in Hempty. by destruct Hempty.
  - intros name. rewrite Hn. split; [|eauto]. intros [Hempty|?]; [|done].
    by apply not_elem_of_empty in Hempty.
Qed.

Lemma estimatedValue_lower getResourceValue podUsage resourceName value :
  value <= loadaware.estimatedValue getResourceValue podUsage resourceName value /\
  (forall quantity, podUsage !! resourceName = Some quantity ->
                    getResourceValue resourceName quantity
                    <= loadaware.estimatedValue getResourceValue podUsage resourceName value).
Proof.
  unfold loadaware.estimatedValue. destruct (podUsage !! resourceName) as [q|].
  - case_decide; split; try lia; intros ? [= <-]; lia.
  - split; [lia|done].
Qed.

Lemma contribution_lower getResourceValue podMetrics resourceName assignInfo :
  (forall estimated, loadaware.estimated assignInfo = Some estimated -> nonneg estimated) ->
  0 <= qty (default ∅ (loadaware.estimated assignInfo)) resourceName
    <= loadaware.contribution getResourceValue podMetrics resourceName assignInfo.
Proof.
  intros Hest. unfold loadaware.contribution, qty.
  destruct (loadaware.estimated assignInfo) as [estimated|]; simpl.
  - specialize (Hest _ eq_refl).
    destruct (estimated !! resourceName) as [value|] eqn:Hv; simpl; [|lia].
    pose proof (Hest _ _ Hv).
    pose proof (proj1 (estimatedValue_lower getResourceValue
                         (default ∅ (podMetrics !! loadaware.namespacedName
                                                  (loadaware.pod assignInfo)))
                         resourceName value)). lia.
  - rewrite lookup_empty. simpl. lia.
Qed.

Lemma estimatedAssignedPodUsed_qty
    getResourceValue missedLatestUpdateTime stillInTheReportInterval args
    assignedPodsOnNode now updateTime nodeMetricReportInterval aggregatedUsageMissing
    podMetrics filterProdPod resourceName :
  qty (loadaware.estimatedAssignedPodUsed getResourceValue missedLatestUpdateTime
         stillInTheReportInterval args assignedPodsOnNode now updateTime
         nodeMetricReportInterval aggregatedUsageMissing podMetrics filterProdPod).1
      resourceName
  = wrap64 (loadaware.countedContributions getResourceValue missedLatestUpdateTime
              stillInTheReportInterval args now updateTime nodeMetricReportInterval
              aggregatedUsageMissing podMetrics filterProdPod resourceName
              assignedPodsOnNode).
Proof.
  unfold loadaware.estimatedAssignedPodUsed.
  destruct (estimate_loop getResourceValue missedLatestUpdateTime stillInTheReportInterval
              args now updateTime nodeMetricReportInterval aggregatedUsageMissing
              podMetrics filterProdPod assignedPodsOnNode ∅ ∅)
    as (_ & Hq & _); [by intros r v; rewrite lookup_empty|].
  cbn zeta in Hq. rewrite Hq. unfold qty at 1. rewrite lookup_empty. simpl.
  by rewrite Z.add_0_l.
Qed.

(** X15.  The estimate does not undercount: when the estimates of the
    assigned pods are not negative and the sum of the counted pods for a
    resource stays within [int64], the sum [estimatedAssignedPodUsed]
    returns for the resource is the exact total of the counted pods'
    values, and it is at least the total of their estimates. *)
Theorem estimatedAssignedPodUsed_lower_bound
    (getResourceValue : ResourceName -> Quantity -> Z)
    (missedLatestUpdateTime : Z -> Z -> bool)
    (stillInTheReportInterval : Z -> Z -> Z -> bool)
    (args : loadaware.LoadAwareSchedulingArgs)
    (assignedPodsOnNode : list loadaware.podAssignInfo) (now : Z) (updateTime : option Z)
    (nodeMetricReportInterval : Z) (aggregatedUsageMissing : bool)
    (podMetrics : gmap (string * string) ResourceList) (filterProdPod : bool)
    (resourceName : ResourceName) :
  let total :=
    loadaware.countedContributions getResourceValue missedLatestUpdateTime
      stillInTheReportInterval args now updateTime nodeMetricReportInterval
      aggregatedUsageMissing podMetrics filterProdPod resourceName assignedPodsOnNode in
  let estimates :=
    loadaware.countedEstimates missedLatestUpdateTime stillInTheReportInterval args now
      updateTime nodeMetricReportInterval aggregatedUsageMissing podMetrics filterProdPod
      resourceName assignedPodsOnNode in
  Forall (fun assignInfo =>
            forall estimated, loadaware.estimated assignInfo = Some estimated ->
                              nonneg estimated) assignedPodsOnNode ->
  total < 2 ^ 63 ->
  qty (loadaware.estimatedAssignedPodUsed getResourceValue missedLatestUpdateTime
         stillInTheReportInterval args assignedPodsOnNode now updateTime
         nodeMetricReportInterval aggregatedUsageMissing podMetrics filterProdPod).1
      resourceName = total /\
  0 <= estimates <= total.
Proof.
  intros total estimates Hnonneg Hmax.
  assert (Hbounds : 0 <= estimates <= total).
  { subst total estimates. clear Hmax.
    unfold loadaware.countedContributions, loadaware.countedEstimates.
    induction Hnonneg as [|assignInfo rest Hest _ IH]; cbn [foldr]; [lia|].
    destruct (loadaware.counted _ _ _ _ _ _ _ _ _ assignInfo); [|lia].
    pose proof (contribution_lower getResourceValue podMetrics resourceName assignInfo Hest).
    lia. }
  split; [|exact Hbounds].
  rewrite estimatedAssignedPodUsed_qty.
  apply wrap64_small. unfold isInt64. fold total. lia.
Qed.

Example estimatedAssignedPodUsed_run :
  loadaware.estimatedAssignedPodUsed plainValue assignedAfterReport reportedWithinInterval
    estimationArgs assignedOnNode (1080 * loadaware.Second)
    (Some (1070 * loadaware.Second)) (60 * loadaware.Second) false nodePodMetrics false
  = (resources [("cpu"%string, 700)], {[ ("ns"%string, "web-0"%string) ]}).
Proof. vm_compute. reflexivity. Qed.

Lemma estimatedAssignedPodUsed_lower_bound_witness :
  qty (loadaware.estimatedAssignedPodUsed plainValue assignedAfterReport
         reportedWithinInterval estimationArgs assignedOnNode (1080 * loadaware.Second)
         (Some (1070 * loadaware.Second)) (60 * loadaware.Second) false nodePodMetrics
         false).1 "cpu"
  = loadaware.countedContributions plainValue assignedAfterReport reportedWithinInterval
      estimationArgs (1080 * loadaware.Second) (Some (1070 * loadaware.Second))
      (60 * loadaware.Second) false nodePodMetrics false "cpu" assignedOnNode /\
  0 <= loadaware.countedEstimates assignedAfterReport reportedWithinInterval
         estimationArgs (1080 * loadaware.Second) (Some (1070 * loadaware.Second))
         (60 * loadaware.Second) false nodePodMetrics false "cpu" assignedOnNode
    <= loadaware.countedContributions plainValue assignedAfterReport reportedWithinInterval
         estimationArgs (1080 * loadaware.Second) (Some (1070 * loadaware.Second))
         (60 * loadaware.Second) false nodePodMetrics false "cpu" assignedOnNode.
Proof.
  apply estimatedAssignedPodUsed_lower_bound.
  - repeat constructor; intros estimated [= <-]. apply nonneg_check. vm_compute. reflexivity.
  - vm_compute. reflexivity.
Defined.

(** ** The estimated usage of a node *)

Lemma wrap64_idemp z : wrap64 (wrap64 z) = wrap64 z.
Proof. apply wrap64_small, wrap64_range. Qed.

Lemma lookup_addValues valueOf values estimatedUsed resourceName :
  loadaware.addValues valueOf values estimatedUsed !! resourceName =
  match values !! resourceName with
  | Some value => Some (wrap64 (qty estimatedUsed resourceName + valueOf resourceName value))
  | None => estimatedUsed !! resourceName
  end.
Proof.
  unfold loadaware.addValues. revert resourceName.
  apply (map_fold_weak_ind
           (fun result (m : gmap string Z) =>
              forall resourceName,
                result !! resourceName =
                match m !! resourceName with
                | Some value =>
                    Some (wrap64 (qty estimatedUsed resourceName + valueOf resourceName value))
                | None => estimatedUsed !! resourceName
                end)).
  - intros resourceName. by rewrite lookup_empty.
  - intros i x m result Hfresh IH resourceName.
    destruct (decide (i = resourceName)) as [->|Hne].
    + rewrite !lookup_insert_eq. unfold qty at 1. by rewrite IH, Hfresh.
    + rewrite !lookup_insert_ne by done. apply IH.
Qed.

(** On a sum within [int64] the loop adds, modulo 2^64, the value of the
    resource, or nothing when [values] does not list it. *)
Lemma qty_addValues valueOf values estimatedUsed resourceName :
  isInt64 (qty estimatedUsed resourceName) ->
  qty (loadaware.addValues valueOf values estimatedUsed) resourceName
  = wrap64 (qty estimatedUsed resourceName
            + match values !! resourceName with
              | Some value => valueOf resourceName value
              | None => 0
              end).
Proof.
  intros Hrange. unfold qty at 1. rewrite lookup_addValues.
  destruct (values !! resourceName) as [value|]; simpl; [done|].
  rewrite Z.add_0_r. symmetry. by apply wrap64_small.
Qed.

(** The sum [GetEstimatedUsed] returns for a resource when there is a node
    metric and an estimate of the pod. *)
Lemma GetEstimatedUsed_qty
    getResourceValue missedLatestUpdateTime stillInTheReportInterval sumPodUsages args
    assignedPodsOnNode now nodeMetric estimate nodeUsage prodPod resourceName :
  isInt64 (qty estimate resourceName) ->
  exists estimatedUsed,
    loadaware.GetEstimatedUsed getResourceValue missedLatestUpdateTime
      stillInTheReportInterval sumPodUsages args assignedPodsOnNode now (Some nodeMetric)
      (inl estimate) nodeUsage prodPod = (Some estimatedUsed, None) /\
    qty estimatedUsed resourceName
    = wrap64 (qty estimate resourceName
              + loadaware.countedContributions getResourceValue missedLatestUpdateTime
                  stillInTheReportInterval args now (loadaware.StatusUpdateTime nodeMetric)
                  (loadaware.ReportInterval nodeMetric)
                  (loadaware.TargetAggregatedUsageMissing nodeMetric)
                  (loadaware.PodMetricMap nodeMetric prodPod) prodPod resourceName
                  assignedPodsOnNode
              + let sums :=
                  sumPodUsages (loadaware.PodMetricMap nodeMetric prodPod)
                    (loadaware.estimatedAssignedPodUsed getResourceValue
                       missedLatestUpdateTime stillInTheReportInterval args
                       assignedPodsOnNode now (loadaware.StatusUpdateTime nodeMetric)
                       (loadaware.ReportInterval nodeMetric)
                       (loadaware.TargetAggregatedUsageMissing nodeMetric)
                       (loadaware.PodMetricMap nodeMetric prodPod) prodPod).2 in
                loadaware.countedUsage getResourceValue nodeMetric sums.1 sums.2 nodeUsage
                                       prodPod resourceName).
Proof.
  intros Hrange. unfold loadaware.GetEstimatedUsed. cbn zeta.
  pose proof (estimatedAssignedPodUsed_qty getResourceValue missedLatestUpdateTime
                stillInTheReportInterval args assignedPodsOnNode now
                (loadaware.StatusUpdateTime nodeMetric) (loadaware.ReportInterval nodeMetric)
                (loadaware.TargetAggregatedUsageMissing nodeMetric)
                (loadaware.PodMetricMap nodeMetric prodPod) prodPod resourceName) as Hassigned.
  destruct (loadaware.estimatedAssignedPodUsed _ _ _ _ _ _ _ _ _ _ _)
    as [assignedPodEstimatedUsed estimatedPods].
  cbn [fst snd] in *.
  destruct (sumPodUsages _ estimatedPods) as [podActualUsages estimatedPodActualUsages].
  cbn [fst snd].
  set (first := loadaware.addValues (fun _ value => value) assignedPodEstimatedUsed estimate).
  assert (Hfirst : qty first resourceName
                   = wrap64 (qty estimate resourceName
                             + loadaware.countedContributions getResourceValue
                                 missedLatestUpdateTime stillInTheReportInterval args now
                                 (loadaware.StatusUpdateTime nodeMetric)
                                 (loadaware.ReportInterval nodeMetric)
                                 (loadaware.TargetAggregatedUsageMissing nodeMetric)
                                 (loadaware.PodMetricMap nodeMetric prodPod) prodPod
                                 resourceName assignedPodsOnNode)).
  { unfold first. rewrite qty_addValues by exact Hrange.
    replace (match assignedPodEstimatedUsed !! resourceName with
             | Some value => value
             | None => 0
             end) with (qty assignedPodEstimatedUsed resourceName)
      by (unfold qty; by destruct (assignedPodEstimatedUsed !! resourceName)).
    by rewrite Hassigned, wrap64_add_r. }
  assert (Hrange' : isInt64 (qty first resourceName)).
  { rewrite Hfirst. apply wrap64_range. }
  eexists. split; [reflexivity|].
  unfold loadaware.countedUsage.
  destruct prodPod.
  - rewrite qty_addValues by exact Hrange'. rewrite Hfirst, wrap64_add_l. reflexivity.
  - destruct (loadaware.StatusNodeMetric nodeMetric) eqn:Estatus.
    + destruct nodeUsage as [nodeUsage|].
      * rewrite qty_addValues by exact Hrange'. rewrite Hfirst, wrap64_add_l.
        reflexivity.
      * rewrite Hfirst, Z.add_0_r. reflexivity.
    + rewrite Hfirst. destruct nodeUsage as [nodeUsage|];
        [destruct (nodeUsage !! resourceName)|]; by rewrite Z.add_0_r.
Qed.

(** X16.  With a node metric and an estimate of the pod,
    [GetEstimatedUsed] returns a map and no error, and the map holds for a
    resource, modulo 2^64, the pod's estimate plus what the counted
    assigned pods add up to plus the usage: for a prod pod the reported
    usage of the pods, else the node usage less the reported usage of the
    estimated pods.  Where the estimated pods report more than the node
    uses, the node usage is counted in full. *)
Theorem GetEstimatedUsed_sums
    (getResourceValue : ResourceName -> Quantity -> Z)
    (missedLatestUpdateTime : Z -> Z -> bool)
    (stillInTheReportInterval : Z -> Z -> Z -> bool)
    (sumPodUsages : gmap (string * string) ResourceList -> gset (string * string) ->
                    ResourceList * ResourceList)
    (args : loadaware.LoadAwareSchedulingArgs)
    (assignedPodsOnNode : list loadaware.podAssignInfo) (now : Z)
    (nodeMetric : loadaware.NodeMetric) (estimate : gmap string Z)
    (nodeUsage : option ResourceList) (prodPod : bool) (resourceName : ResourceName) :
  isInt64 (qty estimate resourceName) ->
  let podMetrics := loadaware.PodMetricMap nodeMetric prodPod in
  let assigned :=
    loadaware.countedContributions getResourceValue missedLatestUpdateTime
      stillInTheReportInterval args now (loadaware.StatusUpdateTime nodeMetric)
      (loadaware.ReportInterval nodeMetric)
      (loadaware.TargetAggregatedUsageMissing nodeMetric) podMetrics prodPod resourceName
      assignedPodsOnNode in
  let sums :=
    sumPodUsages podMetrics
      (loadaware.estimatedAssignedPodUsed getResourceValue missedLatestUpdateTime
         stillInTheReportInterval args assignedPodsOnNode now
         (loadaware.StatusUpdateTime nodeMetric) (loadaware.ReportInterval nodeMetric)
         (loadaware.TargetAggregatedUsageMissing nodeMetric) podMetrics prodPod).2 in
  exists estimatedUsed,
    loadaware.GetEstimatedUsed getResourceValue missedLatestUpdateTime
      stillInTheReportInterval sumPodUsages args assignedPodsOnNode now (Some nodeMetric)
      (inl estimate) nodeUsage prodPod = (Some estimatedUsed, None) /\
    qty estimatedUsed resourceName
    = wrap64 (qty estimate resourceName + assigned
              + loadaware.countedUsage getResourceValue nodeMetric sums.1 sums.2 nodeUsage
                                       prodPod resourceName) /\
    (forall usage quantity,
       prodPod = false -> loadaware.StatusNodeMetric nodeMetric = true ->
       nodeUsage = Some usage -> usage !! resourceName = Some quantity ->
       quantity < qty sums.2 resourceName ->
       qty estimatedUsed resourceName
       = wrap64 (qty estimate resourceName + assigned
                 + getResourceValue resourceName quantity)).
Proof.
  intros Hrange podMetrics assigned sums.
  destruct (GetEstimatedUsed_qty getResourceValue missedLatestUpdateTime
              stillInTheReportInterval sumPodUsages args assignedPodsOnNode now nodeMetric
              estimate nodeUsage prodPod resourceName Hrange)
    as (estimatedUsed & Hreturn & Hqty).
  cbn zeta in Hqty. fold podMetrics in Hqty. fold assigned in Hqty. fold sums in Hqty.
  exists estimatedUsed. split; [exact Hreturn|]. split; [exact Hqty|].
  intros usage quantity -> Hstatus -> Hlookup Hless. rewrite Hqty.
  unfold loadaware.countedUsage, loadaware.nodeUsageLess.
  rewrite Hlookup, Hstatus.
  destruct (decide (qty sums.2 resourceName = 0)); [reflexivity|].
  rewrite decide_False by lia. reflexivity.
Qed.

Lemma GetEstimatedUsed_sums_witness :
  exists estimatedUsed,
    loadaware.GetEstimatedUsed plainValue assignedAfterReport reportedWithinInterval
      summedUsages estimationArgs assignedOnNode (1080 * loadaware.Second)
      (Some reportedNodeMetric) (inl podEstimate) (Some nodeUsed) false
    = (Some estimatedUsed, None) /\
    qty estimatedUsed "cpu" = 1750.
Proof.
  destruct (GetEstimatedUsed_sums plainValue assignedAfterReport reportedWithinInterval
              summedUsages estimationArgs assignedOnNode (1080 * loadaware.Second)
              reportedNodeMetric podEstimate (Some nodeUsed) false "cpu")
    as (estimatedUsed & Hreturn & Hqty & _).
  - vm_compute. split; [discriminate|reflexivity].
  - exists estimatedUsed. split; [exact Hreturn|].
    rewrite Hqty. vm_compute. reflexivity.
Defined.

(** X17.  [GetEstimatedUsed] returns no map exactly when there is no node
    metric or the pod cannot be estimated, and an error exactly when
    there is a node metric and the pod cannot be estimated, the error of
    the estimator.  For a prod pod the result depends neither on the node
    usage passed in nor on the reported usage of the estimated pods; for
    any other pod it does not depend on the reported usage of all pods. *)
Theorem GetEstimatedUsed_outcomes
    (getResourceValue : ResourceName -> Quantity -> Z)
    (missedLatestUpdateTime : Z -> Z -> bool)
    (stillInTheReportInterval : Z -> Z -> Z -> bool)
    (sumPodUsages : gmap (string * string) ResourceList -> gset (string * string) ->
                    ResourceList * ResourceList)
    (args : loadaware.LoadAwareSchedulingArgs)
    (assignedPodsOnNode : list loadaware.podAssignInfo) (now : Z)
    (nodeMetric : option loadaware.NodeMetric) (estimate : gmap string Z + string)
    (nodeUsage : option ResourceList) (prodPod : bool) :
  let result :=
    loadaware.GetEstimatedUsed getResourceValue missedLatestUpdateTime
      stillInTheReportInterval sumPodUsages args assignedPodsOnNode now nodeMetric
      estimate nodeUsage prodPod in
  (result.1 = None <-> nodeMetric = None \/ exists err, estimate = inr err) /\
  (forall err, result.2 = Some err <-> is_Some nodeMetric /\ estimate = inr err) /\
  (forall sumPodUsages' nodeUsage',
     prodPod = true ->
     (forall podMetrics estimatedPods,
        (sumPodUsages' podMetrics estimatedPods).1 = (sumPodUsages podMetrics estimatedPods).1) ->
     loadaware.GetEstimatedUsed getResourceValue missedLatestUpdateTime
       stillInTheReportInterval sumPodUsages' args assignedPodsOnNode now nodeMetric
       estimate nodeUsage' prodPod = result) /\
  (forall sumPodUsages',
     prodPod = false ->
     (forall podMetrics estimatedPods,
        (sumPodUsages' podMetrics estimatedPods).2 = (sumPodUsages podMetrics estimatedPods).2) ->
     loadaware.GetEstimatedUsed getResourceValue missedLatestUpdateTime
       stillInTheReportInterval sumPodUsages' args assignedPodsOnNode now nodeMetric
       estimate nodeUsage prodPod = result).
Proof.
  cbn zeta. unfold loadaware.GetEstimatedUsed.
  destruct nodeMetric as [nodeMetric|]; [destruct estimate as [estimate|err0]|]; cbn zeta.
  - destruct (loadaware.estimatedAssignedPodUsed _ _ _ _ _ _ _ _ _ _ _)
      as [assignedPodEstimatedUsed estimatedPods].
    split; [|split; [|split]].
    + destruct (sumPodUsages _ _). cbn [fst]. split; [done|]. by intros [[=]|[err [=]]].
    + intros err. destruct (sumPodUsages _ _). cbn [snd]. split; [done|]. by intros [_ [=]].
    + intros sumPodUsages' nodeUsage' -> Hsame.
      specialize (Hsame (loadaware.PodMetricMap nodeMetric true) estimatedPods).
      destruct (sumPodUsages' _ _), (sumPodUsages _ _). cbn [fst] in Hsame. by subst.
    + intros sumPodUsages' -> Hsame.
      specialize (Hsame (loadaware.PodMetricMap nodeMetric false) estimatedPods).
      destruct (sumPodUsages' _ _), (sumPodUsages _ _). cbn [snd] in Hsame. by subst.
  - cbn [fst snd]. split; [|split; [|split]]; try done.
    + split; [|done]. intros _. right. by exists err0.
    + intros err. split; [by intros [= ->]|by intros [_ [= ->]]].
  - cbn [fst snd]. split; [|split; [|split]]; try done.
    + split; [|done]. intros _. by left.
    + intros err. split; [done|]. by intros [[x [=]] _].
Qed.
